(** * The plugin pipeline executor of pkg/model/pipeline.go

    A shallow embedding of [Pipeline] (its driver [Run], the plugin
    invocation [runPlugin], the stop protocol [Stop], the hot-update
    listener [cancelAndRerunRunningPlugin] and the two statistics
    updaters), followed by the properties the specification states
    about them.

    The driver is a state-passing program over a [World]: the pipeline
    struct, the task objects of the current run, the plugin registry,
    the statistics sink and the clock.  What the other goroutines do
    while the driver runs (a concurrent [Stop], the hot-update listener,
    the statistics updaters) is delivered by a schedule that the world
    carries: one batch of actions at each atomic operation of the driver
    on [started]/[stopped], and a script of actions for every call of
    [instance.Run].  Theorems quantify over the schedule. *)

From Stdlib Require Import ZArith List String Bool Lia.
Import ListNotations.

Local Open Scope string_scope.
Local Open Scope Z_scope.

(** ** Values of the collaborating packages *)

(** Go's [error]; [None] is [nil]. *)
Definition error := string.

Module task.
(** task.TaskStatus *)
Inductive TaskStatus :=
| Pending | Running | ResponseImmediately | Finishing | Finished.

(** task.TaskResultCode; the three codes handed to [withCancel] are kept
    symbolic. *)
Definition TaskResultCode := Z.

Inductive CancelCode :=
| CanceledByPipelineStopped
| CanceledByPipelinePreempted
| CanceledByPluginUpdated.
End task.

Module plugins.
(** plugins.PluginType: the driver only distinguishes [SourcePlugin]. *)
Inductive PluginType :=
| SourcePlugin
| OtherPlugin (tag : nat).
End plugins.

Module pipelines.
(** pipelines.StatisticsKind *)
Inductive StatisticsKind :=
| SuccessStatistics | FailureStatistics | AllStatistics.
End pipelines.

Module http.
Definition StatusServiceUnavailable : task.TaskResultCode := 503.
End http.

(** A task object as the driver names it: the [*Task] made by [newTask], or
    the task returned by [withCancel parent code], which wraps [parent]. *)
Inductive TaskRef :=
| BaseTask
| CancelTask (code : task.CancelCode) (parent : TaskRef).

(** [*wrappedPlugin]: what [instance.Name()] and [instance.Type()] answer,
    and which incarnation it is. *)
Record wrappedPlugin := {
  wp_name : string;
  wp_type : plugins.PluginType;
  wp_incarnation : nat
}.

(** The task interface the driver consumes (task.Task and the unexported
    methods of [*Task]); the implementation is in task.go.  [T] is the
    state of the task objects of one run; reads and [SetError] go through
    the reference they are called on, [start], [finish], [recover] and
    [clearError] are called on the [*Task]. *)
Class TaskModel (T : Type) := {
  newTask : T;
  withCancel : TaskRef -> task.CancelCode -> T -> T;
  cancel : TaskRef -> T -> T;
  Status : TaskRef -> T -> task.TaskStatus;
  ResultCode : TaskRef -> T -> task.TaskResultCode;
  Error : TaskRef -> T -> option error;
  Finished : TaskRef -> T -> bool;
  SetError : TaskRef -> error -> task.TaskResultCode -> T -> T;
  start : T -> T;
  finish : TaskRef -> T -> T;
  recover : string -> plugins.PluginType -> task.TaskStatus -> TaskRef ->
            T -> bool * T;
  clearError : task.TaskResultCode -> T -> T
}.

(** The registry ([*Model]) the driver consumes; implemented in model.go. *)
Class RegistryModel (R : Type) := {
  getPluginInstance :
    string -> bool -> R ->
    (option wrappedPlugin * plugins.PluginType * Z * option error) * R;
  releasePluginInstance : option wrappedPlugin -> R -> R;
  dismissPluginInstance : wrappedPlugin -> R -> R
}.

(** ** The pipeline struct *)

Record statisticsData := {
  startAt : Z;
  finishAt : Z;
  successful : bool
}.

Record pluginStatisticsData := {
  data : statisticsData;
  pluginName : string
}.

Record pluginUpdateInfo := {
  plugin_Name : string;
  instanceGeneration : Z
}.

(** A value of type [cancelFunc].  The two closures built by [runPlugin]
    capture its locals [preempted] and [rerun]. *)
Inductive cancelFunc :=
| NoOpCancelFunc
| Canceller (t : TaskRef)
| PreemptClosure (t : TaskRef)
| RerunClosure (t : TaskRef).

Definition chanCap : nat := 1024.

Record Pipeline := {
  conf_Name : string;
  conf_PluginNames : list string;
  rerunCancel : option cancelFunc;
  stopCancel : option cancelFunc;
  scheduleCancel : option cancelFunc;
  started : Z;
  stopped : Z;
  runningPluginName : string;
  runningPluginGeneration : Z;
  pipelineAndTaskStatChan : list statisticsData;
  pluginStatChan : list pluginStatisticsData;
  pluginUpdateInfoChan : list pluginUpdateInfo;
  statUpdaterStop : bool;      (* closed? *)
  statUpdaterDone : nat;       (* acknowledgements handed over *)
  done : bool                  (* closed? *)
}.

(** The statistics sink ([*PipelineStatistics]): the calls it received. *)
Record PipelineStatistics := {
  pipelineExecution : list Z;
  taskExecution : list pipelines.StatisticsKind;
  pluginExecution : list (string * pipelines.StatisticsKind * Z)
}.

(** ** Field updates *)

Definition set_rerunCancel (f : option cancelFunc) (p : Pipeline) :=
  {| conf_Name := conf_Name p; conf_PluginNames := conf_PluginNames p;
     rerunCancel := f; stopCancel := stopCancel p;
     scheduleCancel := scheduleCancel p;
     started := started p; stopped := stopped p;
     runningPluginName := runningPluginName p;
     runningPluginGeneration := runningPluginGeneration p;
     pipelineAndTaskStatChan := pipelineAndTaskStatChan p;
     pluginStatChan := pluginStatChan p;
     pluginUpdateInfoChan := pluginUpdateInfoChan p;
     statUpdaterStop := statUpdaterStop p;
     statUpdaterDone := statUpdaterDone p; done := done p |}.

Definition set_stopCancel (f : option cancelFunc) (p : Pipeline) :=
  {| conf_Name := conf_Name p; conf_PluginNames := conf_PluginNames p;
     rerunCancel := rerunCancel p; stopCancel := f;
     scheduleCancel := scheduleCancel p;
     started := started p; stopped := stopped p;
     runningPluginName := runningPluginName p;
     runningPluginGeneration := runningPluginGeneration p;
     pipelineAndTaskStatChan := pipelineAndTaskStatChan p;
     pluginStatChan := pluginStatChan p;
     pluginUpdateInfoChan := pluginUpdateInfoChan p;
     statUpdaterStop := statUpdaterStop p;
     statUpdaterDone := statUpdaterDone p; done := done p |}.

Definition set_scheduleCancel (f : option cancelFunc) (p : Pipeline) :=
  {| conf_Name := conf_Name p; conf_PluginNames := conf_PluginNames p;
     rerunCancel := rerunCancel p; stopCancel := stopCancel p;
     scheduleCancel := f;
     started := started p; stopped := stopped p;
     runningPluginName := runningPluginName p;
     runningPluginGeneration := runningPluginGeneration p;
     pipelineAndTaskStatChan := pipelineAndTaskStatChan p;
     pluginStatChan := pluginStatChan p;
     pluginUpdateInfoChan := pluginUpdateInfoChan p;
     statUpdaterStop := statUpdaterStop p;
     statUpdaterDone := statUpdaterDone p; done := done p |}.

Definition set_started (v : Z) (p : Pipeline) :=
  {| conf_Name := conf_Name p; conf_PluginNames := conf_PluginNames p;
     rerunCancel := rerunCancel p; stopCancel := stopCancel p;
     scheduleCancel := scheduleCancel p;
     started := v; stopped := stopped p;
     runningPluginName := runningPluginName p;
     runningPluginGeneration := runningPluginGeneration p;
     pipelineAndTaskStatChan := pipelineAndTaskStatChan p;
     pluginStatChan := pluginStatChan p;
     pluginUpdateInfoChan := pluginUpdateInfoChan p;
     statUpdaterStop := statUpdaterStop p;
     statUpdaterDone := statUpdaterDone p; done := done p |}.

Definition set_stopped (v : Z) (p : Pipeline) :=
  {| conf_Name := conf_Name p; conf_PluginNames := conf_PluginNames p;
     rerunCancel := rerunCancel p; stopCancel := stopCancel p;
     scheduleCancel := scheduleCancel p;
     started := started p; stopped := v;
     runningPluginName := runningPluginName p;
     runningPluginGeneration := runningPluginGeneration p;
     pipelineAndTaskStatChan := pipelineAndTaskStatChan p;
     pluginStatChan := pluginStatChan p;
     pluginUpdateInfoChan := pluginUpdateInfoChan p;
     statUpdaterStop := statUpdaterStop p;
     statUpdaterDone := statUpdaterDone p; done := done p |}.

Definition set_runningPluginName (s : string) (p : Pipeline) :=
  {| conf_Name := conf_Name p; conf_PluginNames := conf_PluginNames p;
     rerunCancel := rerunCancel p; stopCancel := stopCancel p;
     scheduleCancel := scheduleCancel p;
     started := started p; stopped := stopped p;
     runningPluginName := s;
     runningPluginGeneration := runningPluginGeneration p;
     pipelineAndTaskStatChan := pipelineAndTaskStatChan p;
     pluginStatChan := pluginStatChan p;
     pluginUpdateInfoChan := pluginUpdateInfoChan p;
     statUpdaterStop := statUpdaterStop p;
     statUpdaterDone := statUpdaterDone p; done := done p |}.

Definition set_runningPluginGeneration (g : Z) (p : Pipeline) :=
  {| conf_Name := conf_Name p; conf_PluginNames := conf_PluginNames p;
     rerunCancel := rerunCancel p; stopCancel := stopCancel p;
     scheduleCancel := scheduleCancel p;
     started := started p; stopped := stopped p;
     runningPluginName := runningPluginName p;
     runningPluginGeneration := g;
     pipelineAndTaskStatChan := pipelineAndTaskStatChan p;
     pluginStatChan := pluginStatChan p;
     pluginUpdateInfoChan := pluginUpdateInfoChan p;
     statUpdaterStop := statUpdaterStop p;
     statUpdaterDone := statUpdaterDone p; done := done p |}.

Definition set_pipelineAndTaskStatChan (c : list statisticsData)
    (p : Pipeline) :=
  {| conf_Name := conf_Name p; conf_PluginNames := conf_PluginNames p;
     rerunCancel := rerunCancel p; stopCancel := stopCancel p;
     scheduleCancel := scheduleCancel p;
     started := started p; stopped := stopped p;
     runningPluginName := runningPluginName p;
     runningPluginGeneration := runningPluginGeneration p;
     pipelineAndTaskStatChan := c;
     pluginStatChan := pluginStatChan p;
     pluginUpdateInfoChan := pluginUpdateInfoChan p;
     statUpdaterStop := statUpdaterStop p;
     statUpdaterDone := statUpdaterDone p; done := done p |}.

Definition set_pluginStatChan (c : list pluginStatisticsData)
    (p : Pipeline) :=
  {| conf_Name := conf_Name p; conf_PluginNames := conf_PluginNames p;
     rerunCancel := rerunCancel p; stopCancel := stopCancel p;
     scheduleCancel := scheduleCancel p;
     started := started p; stopped := stopped p;
     runningPluginName := runningPluginName p;
     runningPluginGeneration := runningPluginGeneration p;
     pipelineAndTaskStatChan := pipelineAndTaskStatChan p;
     pluginStatChan := c;
     pluginUpdateInfoChan := pluginUpdateInfoChan p;
     statUpdaterStop := statUpdaterStop p;
     statUpdaterDone := statUpdaterDone p; done := done p |}.

Definition set_statUpdaterStop (b : bool) (p : Pipeline) :=
  {| conf_Name := conf_Name p; conf_PluginNames := conf_PluginNames p;
     rerunCancel := rerunCancel p; stopCancel := stopCancel p;
     scheduleCancel := scheduleCancel p;
     started := started p; stopped := stopped p;
     runningPluginName := runningPluginName p;
     runningPluginGeneration := runningPluginGeneration p;
     pipelineAndTaskStatChan := pipelineAndTaskStatChan p;
     pluginStatChan := pluginStatChan p;
     pluginUpdateInfoChan := pluginUpdateInfoChan p;
     statUpdaterStop := b;
     statUpdaterDone := statUpdaterDone p; done := done p |}.

Definition set_statUpdaterDone (n : nat) (p : Pipeline) :=
  {| conf_Name := conf_Name p; conf_PluginNames := conf_PluginNames p;
     rerunCancel := rerunCancel p; stopCancel := stopCancel p;
     scheduleCancel := scheduleCancel p;
     started := started p; stopped := stopped p;
     runningPluginName := runningPluginName p;
     runningPluginGeneration := runningPluginGeneration p;
     pipelineAndTaskStatChan := pipelineAndTaskStatChan p;
     pluginStatChan := pluginStatChan p;
     pluginUpdateInfoChan := pluginUpdateInfoChan p;
     statUpdaterStop := statUpdaterStop p;
     statUpdaterDone := n; done := done p |}.

Definition set_done (b : bool) (p : Pipeline) :=
  {| conf_Name := conf_Name p; conf_PluginNames := conf_PluginNames p;
     rerunCancel := rerunCancel p; stopCancel := stopCancel p;
     scheduleCancel := scheduleCancel p;
     started := started p; stopped := stopped p;
     runningPluginName := runningPluginName p;
     runningPluginGeneration := runningPluginGeneration p;
     pipelineAndTaskStatChan := pipelineAndTaskStatChan p;
     pluginStatChan := pluginStatChan p;
     pluginUpdateInfoChan := pluginUpdateInfoChan p;
     statUpdaterStop := statUpdaterStop p;
     statUpdaterDone := statUpdaterDone p; done := b |}.

(** ** The world the driver runs in *)

(** Source lines: the atomic loads of [stopped] in [Run] and [runPlugin],
    and the reads of [t.Error()] at lines 181, 283 and 303. *)
Inductive Site :=
| L109 | L126 | L155 | L177 | L181 | L192 | L278 | L283 | L299 | L303 | L308.

Inductive Slot := SlotRerun | SlotStop | SlotSchedule.

Inductive Updater := PipelineUpdater | PluginUpdater.

(** What happened, newest first (ghost state; the program never reads it). *)
Inductive Event :=
| EvLoadStopped (site : Site) (v : Z)
| EvCasStarted (ok : bool)
| EvStoreStarted (v : Z)
| EvCasStopped (ok : bool)
| EvLoadStarted (v : Z)
| EvInvoke (slot : Slot) (f : option cancelFunc)
| EvCancel (t : TaskRef)
| EvGetPluginInstance (name : string) (forRun : bool)
| EvReleasePluginInstance (inst : option wrappedPlugin)
| EvDismissPluginInstance (inst : wrappedPlugin)
| EvPluginRunEnter (inst : wrappedPlugin) (t : TaskRef) (p : Pipeline)
| EvPluginRunExit (inst : wrappedPlugin) (err : option error) (p : Pipeline)
| EvRunPluginReturn (success preempted rerun : bool)
| EvOfferPluginStat (d : pluginStatisticsData) (accepted : bool)
| EvOfferPipelineStat (d : statisticsData) (accepted : bool)
| EvReadError (site : Site) (v : option error)
| EvSetError (t : TaskRef) (e : error) (c : task.TaskResultCode)
| EvPluginSetError (t : TaskRef) (e : error) (c : task.TaskResultCode)
| EvStart
| EvFinish (t : TaskRef)
| EvRecover (name : string) (ty : plugins.PluginType)
    (st : task.TaskStatus) (t : TaskRef) (recovered : bool)
| EvClearError (c : task.TaskResultCode)
| EvWaitDone
| EvCloseDone
| EvCloseStatUpdaterStop
| EvAck (u : Updater).

(** What another goroutine may do between two steps of the driver. *)
Inductive EnvAction :=
| EnvStop (scheduled : bool)       (* Stop: its CAS and its cancel call *)
| EnvNotice (info : pluginUpdateInfo) (* the listener handles one notice *)
| EnvPipelineUpdater               (* a statistics updater takes a record *)
| EnvPluginUpdater
| EnvTick (d : Z).                 (* time passes *)

(** What happens while [instance.Run] executes: the plugin sets an error on
    the task it was given, or another goroutine acts. *)
Inductive RunStep :=
| ByEnv (a : EnvAction)
| BySetError (e : error) (c : task.TaskResultCode).

Record PluginRun := {
  steps : list RunStep;
  returns : option error
}.

Inductive updaterState := Serving | Acking | Exited.

(** Where a [Stop] that won its CAS stands. *)
Inductive StopPhase := NoStop | StopWaitsDone | StopDrains | StopReturned.

Section Driver.

Context {T R : Type} {TM : TaskModel T} {RM : RegistryModel R}.

Record World := {
  pl : Pipeline;
  hist : list Pipeline;            (* ghost: the struct after every write *)
  tk : T;
  reg : R;
  stats : PipelineStatistics;
  clock : Z;
  preempted_cell : bool;           (* runPlugin's local [preempted] *)
  rerun_cell : bool;               (* runPlugin's local [rerun] *)
  interleave : list (list EnvAction);
  runs : list PluginRun;
  trace : list Event;
  pipelineUpdater : updaterState;
  pluginUpdater : updaterState;
  stopCall : StopPhase
}.

Definition write (f : Pipeline -> Pipeline) (w : World) : World :=
  Build_World (f (pl w)) (f (pl w) :: hist w) (tk w) (reg w) (stats w)
    (clock w) (preempted_cell w) (rerun_cell w) (interleave w) (runs w)
    (trace w) (pipelineUpdater w) (pluginUpdater w) (stopCall w).

Definition with_tk (f : T -> T) (w : World) : World :=
  Build_World (pl w) (hist w) (f (tk w)) (reg w) (stats w)
    (clock w) (preempted_cell w) (rerun_cell w) (interleave w) (runs w)
    (trace w) (pipelineUpdater w) (pluginUpdater w) (stopCall w).

Definition with_reg (f : R -> R) (w : World) : World :=
  Build_World (pl w) (hist w) (tk w) (f (reg w)) (stats w)
    (clock w) (preempted_cell w) (rerun_cell w) (interleave w) (runs w)
    (trace w) (pipelineUpdater w) (pluginUpdater w) (stopCall w).

Definition with_stats (f : PipelineStatistics -> PipelineStatistics)
    (w : World) : World :=
  Build_World (pl w) (hist w) (tk w) (reg w) (f (stats w))
    (clock w) (preempted_cell w) (rerun_cell w) (interleave w) (runs w)
    (trace w) (pipelineUpdater w) (pluginUpdater w) (stopCall w).

Definition set_clock (c : Z) (w : World) : World :=
  Build_World (pl w) (hist w) (tk w) (reg w) (stats w)
    c (preempted_cell w) (rerun_cell w) (interleave w) (runs w)
    (trace w) (pipelineUpdater w) (pluginUpdater w) (stopCall w).

Definition set_preempted_cell (b : bool) (w : World) : World :=
  Build_World (pl w) (hist w) (tk w) (reg w) (stats w)
    (clock w) b (rerun_cell w) (interleave w) (runs w)
    (trace w) (pipelineUpdater w) (pluginUpdater w) (stopCall w).

Definition set_rerun_cell (b : bool) (w : World) : World :=
  Build_World (pl w) (hist w) (tk w) (reg w) (stats w)
    (clock w) (preempted_cell w) b (interleave w) (runs w)
    (trace w) (pipelineUpdater w) (pluginUpdater w) (stopCall w).

Definition set_interleave (l : list (list EnvAction)) (w : World) : World :=
  Build_World (pl w) (hist w) (tk w) (reg w) (stats w)
    (clock w) (preempted_cell w) (rerun_cell w) l (runs w)
    (trace w) (pipelineUpdater w) (pluginUpdater w) (stopCall w).

Definition set_runs (l : list PluginRun) (w : World) : World :=
  Build_World (pl w) (hist w) (tk w) (reg w) (stats w)
    (clock w) (preempted_cell w) (rerun_cell w) (interleave w) l
    (trace w) (pipelineUpdater w) (pluginUpdater w) (stopCall w).

Definition log (e : Event) (w : World) : World :=
  Build_World (pl w) (hist w) (tk w) (reg w) (stats w)
    (clock w) (preempted_cell w) (rerun_cell w) (interleave w) (runs w)
    (e :: trace w) (pipelineUpdater w) (pluginUpdater w) (stopCall w).

Definition set_pipelineUpdater (s : updaterState) (w : World) : World :=
  Build_World (pl w) (hist w) (tk w) (reg w) (stats w)
    (clock w) (preempted_cell w) (rerun_cell w) (interleave w) (runs w)
    (trace w) s (pluginUpdater w) (stopCall w).

Definition set_pluginUpdater (s : updaterState) (w : World) : World :=
  Build_World (pl w) (hist w) (tk w) (reg w) (stats w)
    (clock w) (preempted_cell w) (rerun_cell w) (interleave w) (runs w)
    (trace w) (pipelineUpdater w) s (stopCall w).

Definition set_stopCall (s : StopPhase) (w : World) : World :=
  Build_World (pl w) (hist w) (tk w) (reg w) (stats w)
    (clock w) (preempted_cell w) (rerun_cell w) (interleave w) (runs w)
    (trace w) (pipelineUpdater w) (pluginUpdater w) s.

(** ** Cancel functions *)

Definition cancel_task (t : TaskRef) (w : World) : World :=
  log (EvCancel t) (with_tk (cancel t) w).

(** Calling the function held in a cancel slot, inside the
    [defer func() { recover() }()] scope of the caller: a nil function
    panics and the panic is swallowed. *)
Definition invoke (f : option cancelFunc) (w : World) : World :=
  match f with
  | None => w
  | Some NoOpCancelFunc => w
  | Some (Canceller t) => cancel_task t w
  | Some (PreemptClosure t) => cancel_task t (set_preempted_cell true w)
  | Some (RerunClosure t) => cancel_task t (set_rerun_cell true w)
  end.

(** ** Statistics updaters *)

Definition updatePipelineAndTaskStat (d : statisticsData)
    (s : PipelineStatistics) : PipelineStatistics :=
  let s1 :=
    {| pipelineExecution := pipelineExecution s ++ [finishAt d - startAt d];
       taskExecution := taskExecution s;
       pluginExecution := pluginExecution s |} in
  let kind :=
    if successful d then pipelines.SuccessStatistics
    else pipelines.FailureStatistics in
  {| pipelineExecution := pipelineExecution s1;
     taskExecution := taskExecution s1 ++ [kind];
     pluginExecution := pluginExecution s1 |}.

Definition updatePluginStat (d : pluginStatisticsData)
    (s : PipelineStatistics) : PipelineStatistics :=
  let kind :=
    if successful (data d) then pipelines.SuccessStatistics
    else pipelines.FailureStatistics in
  {| pipelineExecution := pipelineExecution s;
     taskExecution := taskExecution s;
     pluginExecution :=
       pluginExecution s ++
       [(pluginName d, kind, finishAt (data d) - startAt (data d))] |}.

(** The [case data := <-p.pipelineAndTaskStatChan] branch of the select in
    [pipelineAndTaskStatUpdater]. *)
Definition pipelineAndTaskStatUpdater_recv (w : World) : World :=
  match pipelineUpdater w, pipelineAndTaskStatChan (pl w) with
  | Serving, d :: rest =>
      with_stats (updatePipelineAndTaskStat d)
        (write (set_pipelineAndTaskStatChan rest) w)
  | _, _ => w
  end.

Definition pluginStatUpdater_recv (w : World) : World :=
  match pluginUpdater w, pluginStatChan (pl w) with
  | Serving, d :: rest =>
      with_stats (updatePluginStat d) (write (set_pluginStatChan rest) w)
  | _, _ => w
  end.

(** [drainPipelineAndTaskStatData]: receive until the channel is empty. *)
Fixpoint drain_records {A} (upd : A -> PipelineStatistics -> PipelineStatistics)
    (c : list A) (s : PipelineStatistics) : PipelineStatistics :=
  match c with
  | [] => s
  | d :: c' => drain_records upd c' (upd d s)
  end.

Definition drainPipelineAndTaskStatData (w : World) : World :=
  with_stats
    (drain_records updatePipelineAndTaskStat (pipelineAndTaskStatChan (pl w)))
    (write (set_pipelineAndTaskStatChan []) w).

Definition drainPluginStatData (w : World) : World :=
  with_stats (drain_records updatePluginStat (pluginStatChan (pl w)))
    (write (set_pluginStatChan []) w).

(** The [case <-p.statUpdaterStop] branch: drain, then block sending the
    acknowledgement until [Stop] receives it. *)
Definition pipelineAndTaskStatUpdater_stop (w : World) : World :=
  set_pipelineUpdater Acking (drainPipelineAndTaskStatData w).

Definition pluginStatUpdater_stop (w : World) : World :=
  set_pluginUpdater Acking (drainPluginStatData w).

(** ** The hot-update listener *)

(** The body of the goroutine started for one notice in
    [cancelAndRerunRunningPlugin]. *)
Definition listener_handle (info : pluginUpdateInfo) (w : World) : World :=
  if negb (String.eqb (runningPluginName (pl w)) (plugin_Name info))
     || (runningPluginGeneration (pl w) >? instanceGeneration info)
  then w
  else invoke (rerunCancel (pl w))
         (log (EvInvoke SlotRerun (rerunCancel (pl w))) w).

(** The loop: one notice after the other until the channel is closed. *)
Definition cancelAndRerunRunningPlugin (notices : list pluginUpdateInfo)
    (w : World) : World :=
  fold_left (fun w info => listener_handle info w) notices w.

(** ** Stop, up to the point where it may block *)

(** Lines 209-226 of [Stop]: the CAS on [stopped], the cancel call inside
    the panic-swallowing scope, and the load of [started]. *)
Definition Stop_enter (scheduled : bool) (w : World) : World :=
  if stopped (pl w) =? 0 then
    let w1 := log (EvCasStopped true) (write (set_stopped 1) w) in
    let slot := if scheduled then SlotSchedule else SlotStop in
    let f := if scheduled then scheduleCancel (pl w1)
             else stopCancel (pl w1) in
    let w2 := invoke f (log (EvInvoke slot f) w1) in
    let v := started (pl w2) in
    set_stopCall (if v =? 1 then StopWaitsDone else StopDrains)
      (log (EvLoadStarted v) w2)
  else log (EvCasStopped false) w.

Definition env_step (a : EnvAction) (w : World) : World :=
  match a with
  | EnvStop scheduled => Stop_enter scheduled w
  | EnvNotice info => listener_handle info w
  | EnvPipelineUpdater => pipelineAndTaskStatUpdater_recv w
  | EnvPluginUpdater => pluginStatUpdater_recv w
  | EnvTick d => set_clock (clock w + Z.abs d) w
  end.

Definition env_steps (b : list EnvAction) (w : World) : World :=
  fold_left (fun w a => env_step a w) b w.

(** The other goroutines take their turn: the next batch of the schedule. *)
Definition yield (w : World) : World :=
  match interleave w with
  | [] => w
  | b :: rest => env_steps b (set_interleave rest w)
  end.

(** ** The driver's monad: state, panics, blocking and fuel *)

Inductive Outcome (A : Type) :=
| Ok (a : A) (w : World)
| Panic (why : string) (w : World)
| Blocked (w : World)
| OutOfFuel.

Arguments Ok {A} a w.
Arguments Panic {A} why w.
Arguments Blocked {A} w.
Arguments OutOfFuel {A}.

Definition M (A : Type) := World -> Outcome A.

Definition ret {A} (a : A) : M A := fun w => Ok a w.

Definition bind {A B} (m : M A) (f : A -> M B) : M B :=
  fun w =>
    match m w with
    | Ok a w' => f a w'
    | Panic why w' => Panic why w'
    | Blocked w' => Blocked w'
    | OutOfFuel => OutOfFuel
    end.

Notation "x <- m ;; k" := (bind m (fun x => k))
  (at level 61, m at next level, right associativity).
Notation "' pat <- m ;; k" :=
  (bind m (fun x => match x with pat => k end))
  (at level 61, pat pattern, m at next level, right associativity).
Notation "m ;; k" := (bind m (fun _ => k))
  (at level 61, right associativity).

Definition lift (f : World -> World) : M unit := fun w => Ok tt (f w).

Definition gets {A} (f : World -> A) : M A := fun w => Ok (f w) w.

Definition when (b : bool) (m : M unit) : M unit :=
  if b then m else ret tt.

(** atomic.LoadUint32(&p.stopped) *)
Definition load_stopped (site : Site) : M Z :=
  fun w =>
    let w1 := yield w in
    let v := stopped (pl w1) in
    Ok v (log (EvLoadStopped site v) w1).

(** atomic.CompareAndSwapUint32(&p.started, 0, 1) *)
Definition cas_started : M bool :=
  fun w =>
    let w1 := yield w in
    if started (pl w1) =? 0
    then Ok true (log (EvCasStarted true) (write (set_started 1) w1))
    else Ok false (log (EvCasStarted false) w1).

(** atomic.StoreUint32(&p.started, v) *)
Definition store_started (v : Z) : M unit :=
  fun w => Ok tt (log (EvStoreStarted v) (write (set_started v) (yield w))).

(** common.Now() *)
Definition Now : M Z := gets clock.

(** A method call on [instance]: a nil [*wrappedPlugin] cannot answer. *)
Definition deref (instance : option wrappedPlugin) : M wrappedPlugin :=
  fun w =>
    match instance with
    | Some i => Ok i w
    | None => Panic "nil pointer dereference" w
    end.

Definition t_SetError (t : TaskRef) (e : error) (c : task.TaskResultCode)
  : M unit :=
  lift (fun w => log (EvSetError t e c) (with_tk (SetError t e c) w)).

(** t.Error() *)
Definition t_Error (site : Site) (t : TaskRef) : M (option error) :=
  fun w => Ok (Error t (tk w)) (log (EvReadError site (Error t (tk w))) w).

Definition t_start : M unit :=
  lift (fun w => log EvStart (with_tk start w)).

Definition t_finish (t : TaskRef) : M unit :=
  lift (fun w => log (EvFinish t) (with_tk (finish t) w)).

Definition t_recover (name : string) (ty : plugins.PluginType)
    (st : task.TaskStatus) (t : TaskRef) : M bool :=
  fun w =>
    let r := recover name ty st t (tk w) in
    Ok (fst r)
       (log (EvRecover name ty st t (fst r)) (with_tk (fun _ => snd r) w)).

Definition t_clearError (c : task.TaskResultCode) : M unit :=
  lift (fun w => log (EvClearError c) (with_tk (clearError c) w)).

Definition m_getPluginInstance (name : string) (forRun : bool)
  : M (option wrappedPlugin * plugins.PluginType * Z * option error) :=
  fun w =>
    let r := getPluginInstance name forRun (reg w) in
    Ok (fst r)
       (log (EvGetPluginInstance name forRun) (with_reg (fun _ => snd r) w)).

Definition m_releasePluginInstance (instance : option wrappedPlugin)
  : M unit :=
  lift (fun w => log (EvReleasePluginInstance instance)
                   (with_reg (releasePluginInstance instance) w)).

Definition m_dismissPluginInstance (i : wrappedPlugin) : M unit :=
  lift (fun w => log (EvDismissPluginInstance i)
                   (with_reg (dismissPluginInstance i) w)).

(** [select { case ch <- data: default: }] on a channel of capacity 1024. *)
Definition offer {A} (c : list A) (d : A) : list A * bool :=
  if (List.length c <? chanCap)%nat then ((c ++ [d])%list, true)
  else (c, false).

Definition offer_pluginStat (d : pluginStatisticsData) : M unit :=
  lift (fun w =>
    let r := offer (pluginStatChan (pl w)) d in
    log (EvOfferPluginStat d (snd r))
      (if snd r then write (set_pluginStatChan (fst r)) w else w)).

Definition offer_pipelineStat (d : statisticsData) : M unit :=
  lift (fun w =>
    let r := offer (pipelineAndTaskStatChan (pl w)) d in
    log (EvOfferPipelineStat d (snd r))
      (if snd r then write (set_pipelineAndTaskStatChan (fst r)) w else w)).

(** ** instance.Run(p.ctx, t) *)

Definition run_step (t : TaskRef) (s : RunStep) (w : World) : World :=
  match s with
  | ByEnv a => env_step a w
  | BySetError e c =>
      log (EvPluginSetError t e c) (with_tk (SetError t e c) w)
  end.

Definition run_steps (t : TaskRef) (l : list RunStep) (w : World) : World :=
  fold_left (fun w s => run_step t s w) l w.

(** The call takes the next script of the schedule; with none left the
    plugin returns nil at once. *)
Definition instance_Run (i : wrappedPlugin) (t : TaskRef)
  : M (option error) :=
  fun w =>
    let w1 := log (EvPluginRunEnter i t (pl w)) w in
    match runs w1 with
    | [] => Ok None (log (EvPluginRunExit i None (pl w1)) w1)
    | r :: rest =>
        let w2 := run_steps t (steps r) (set_runs rest w1) in
        Ok (returns r) (log (EvPluginRunExit i (returns r) (pl w2)) w2)
    end.

(** ** runPlugin *)

Definition is_nil {A} (o : option A) : bool :=
  match o with None => true | Some _ => false end.

(** Lines 242-267: the cancel wrappers, the two closures and the
    running-plugin slots. *)
Definition runPlugin_prepare (instance : option wrappedPlugin)
    (pluginType : plugins.PluginType) (gen : Z) (input : TaskRef)
  : M (wrappedPlugin * TaskRef * task.TaskResultCode) :=
  lift (set_preempted_cell false) ;;
  t <- match pluginType with
       | plugins.SourcePlugin =>
           lift (with_tk (withCancel input task.CanceledByPipelinePreempted)) ;;
           lift (write (set_scheduleCancel
                   (Some (PreemptClosure
                      (CancelTask task.CanceledByPipelinePreempted input))))) ;;
           ret (CancelTask task.CanceledByPipelinePreempted input)
       | plugins.OtherPlugin _ => ret input
       end ;;
  originalCode <- gets (fun w => ResultCode input (tk w)) ;;
  lift (set_rerun_cell false) ;;
  lift (with_tk (withCancel t task.CanceledByPluginUpdated)) ;;
  lift (write (set_rerunCancel
          (Some (RerunClosure (CancelTask task.CanceledByPluginUpdated t))))) ;;
  lift (write (set_runningPluginGeneration gen)) ;;
  i <- deref instance ;;
  lift (write (set_runningPluginName (wp_name i))) ;;
  ret (i, CancelTask task.CanceledByPluginUpdated t, originalCode).

(** Lines 269-276: the timed call and the reset of the slots. *)
Definition runPlugin_invoke (i : wrappedPlugin) (t : TaskRef)
  : M (Z * option error * Z) :=
  startAt <- Now ;;
  err <- instance_Run i t ;;
  finishAt <- Now ;;
  lift (write (set_runningPluginName "")) ;;
  lift (write (set_runningPluginGeneration 0)) ;;
  lift (write (set_rerunCancel (Some NoOpCancelFunc))) ;;
  lift (write (set_scheduleCancel (Some NoOpCancelFunc))) ;;
  ret (startAt, err, finishAt).

(** Lines 278-292: the per-plugin statistics record. *)
Definition runPlugin_publish (i : wrappedPlugin) (t : TaskRef)
    (startAt : Z) (err : option error) (finishAt : Z) : M unit :=
  rerun <- gets rerun_cell ;;
  if rerun then ret tt else
  preempted <- gets preempted_cell ;;
  if preempted then ret tt else
  v <- load_stopped L278 ;;
  if v =? 0 then
    ok <- (if is_nil err
           then terr <- t_Error L283 t ;; ret (is_nil terr)
           else ret false) ;;
    offer_pluginStat
      {| data := {| startAt := startAt; finishAt := finishAt;
                    successful := ok |};
         pluginName := wp_name i |}
  else ret tt.

(** Lines 294-312: what a plugin error does to the task and the instance. *)
Definition runPlugin_settle (i : wrappedPlugin) (t : TaskRef)
    (originalCode : task.TaskResultCode) (err : option error) : M unit :=
  match err with
  | None => ret tt
  | Some e =>
      rerun <- gets rerun_cell ;;
      (if rerun then t_clearError originalCode
       else
         preempted <- gets preempted_cell ;;
         if preempted then ret tt else
         _ <- load_stopped L299 ;;      (* decides only whether to log *)
         terr <- t_Error L303 t ;;
         when (is_nil terr) (t_SetError t e http.StatusServiceUnavailable)) ;;
      v <- load_stopped L308 ;;
      preempted <- gets preempted_cell ;;
      when ((v =? 0) && negb preempted) (m_dismissPluginInstance i)
  end.

Definition runPlugin (instance : option wrappedPlugin)
    (pluginType : plugins.PluginType) (gen : Z) (input : TaskRef)
  : M (bool * bool * bool) :=
  '(i, t, originalCode) <- runPlugin_prepare instance pluginType gen input ;;
  '(startAt, err, finishAt) <- runPlugin_invoke i t ;;
  runPlugin_publish i t startAt err finishAt ;;
  runPlugin_settle i t originalCode err ;;
  preempted <- gets preempted_cell ;;
  rerun <- gets rerun_cell ;;
  lift (log (EvRunPluginReturn (is_nil err) preempted rerun)) ;;
  ret (is_nil err, preempted, rerun).

(** ** Run *)

Inductive LoopCtl :=
| Continue (i : Z)
| Break.

Definition Flags := (bool * bool * bool)%type.   (* success, preempted, rerun *)

(** Lines 149-166: the second dispatch on the task status. *)
Definition Run_dispatch (instance : option wrappedPlugin) (t : TaskRef)
  : M unit :=
  st <- gets (fun w => Status t (tk w)) ;;
  match st with
  | task.ResponseImmediately =>
      v <- load_stopped L155 ;;
      if v =? 1 then t_finish t
      else
        match instance with
        | Some i =>
            recovered <- t_recover (wp_name i) (wp_type i) task.Running t ;;
            when (negb recovered) (t_finish t)
        | None => ret tt
        end
  | task.Finishing => t_finish t
  | _ => ret tt
  end.

(** Lines 139-146: the invocation, the release and the rerun test.  The
    boolean tells whether the iteration ends with [i--; continue]. *)
Definition Run_invoke (instance : option wrappedPlugin)
    (pluginType : plugins.PluginType) (gen : Z) (t : TaskRef)
  : M (bool * Flags) :=
  '(success, preempted, rerun) <- runPlugin instance pluginType gen t ;;
  m_releasePluginInstance instance ;;
  ret (negb success && rerun, (success, preempted, rerun)).

(** Lines 127-170: one iteration of the loop over the plugin names. *)
Definition Run_body (names : list string) (t : TaskRef) (i : Z)
    (flags : Flags) : M (LoopCtl * Flags) :=
  '(instance, pluginType, gen, err) <-
     m_getPluginInstance (nth (Z.to_nat i) names "") true ;;
  match err with
  | Some e => t_SetError t e http.StatusServiceUnavailable
  | None => ret tt
  end ;;
  st <- gets (fun w => Status t (tk w)) ;;
  '(again, flags') <-
     match st with
     | task.Pending => t_start ;; Run_invoke instance pluginType gen t
     | task.Running => Run_invoke instance pluginType gen t
     | _ => ret (false, flags)
     end ;;
  if again then ret (Continue (i - 1), flags') else
  Run_dispatch instance t ;;
  st <- gets (fun w => Status t (tk w)) ;;
  match st with
  | task.Finished => ret (Break, flags')
  | _ => ret (Continue i, flags')
  end.

(** Line 126: [for i := 0; i < len(pluginNames) && stopped == 0; i++]. *)
Fixpoint Run_loop (fuel : nat) (names : list string) (t : TaskRef) (i : Z)
    (flags : Flags) : M Flags :=
  match fuel with
  | O => fun _ => OutOfFuel
  | S fuel' =>
      if i <? Z.of_nat (List.length names) then
        v <- load_stopped L126 ;;
        if v =? 0 then
          '(ctl, flags') <- Run_body names t i flags ;;
          match ctl with
          | Continue i' => Run_loop fuel' names t (i' + 1) flags'
          | Break => ret flags'
          end
        else ret flags
      else ret flags
  end.

Definition close_done : M unit :=
  fun w =>
    if done (pl w) then Panic "close of closed channel" w
    else Ok tt (log EvCloseDone (write (set_done true) w)).

(** Lines 173-194: finishing the task, the pipeline statistics record,
    the release of [started] and the signal to [Stop]. *)
Definition Run_finish (t : TaskRef) (startAt : Z) (preempted : bool)
  : M unit :=
  fin <- gets (fun w => Finished t (tk w)) ;;
  when (negb fin) (t_finish t) ;;
  (if preempted then ret tt else
   v <- load_stopped L177 ;;
   if v =? 0 then
     finishAt <- Now ;;
     terr <- t_Error L181 t ;;
     offer_pipelineStat
       {| startAt := startAt; finishAt := finishAt;
          successful := is_nil terr |}
   else ret tt) ;;
  store_started 0 ;;
  v <- load_stopped L192 ;;
  when (v =? 1) close_done.

(** An iteration that does not advance [i] reruns a plugin that a hot
    update cancelled while it ran, so it has played a script of the
    schedule: this many loop tests suffice. *)
Definition loop_fuel (names : list string) (w : World) : nat :=
  S (List.length names + List.length (runs w)).

Definition stopTask : TaskRef :=
  CancelTask task.CanceledByPipelineStopped BaseTask.

Definition Run : M (option error) :=
  v <- load_stopped L109 ;;
  if v =? 1 then ret None else
  ok <- cas_started ;;
  if negb ok then ret (Some "pipeline is already started") else
  lift (with_tk (fun _ => newTask)) ;;
  lift (with_tk (withCancel BaseTask task.CanceledByPipelineStopped)) ;;
  lift (write (set_stopCancel (Some (Canceller stopTask)))) ;;
  names <- gets (fun w => conf_PluginNames (pl w)) ;;
  startAt <- Now ;;
  fuel <- gets (loop_fuel names) ;;
  '(_, preempted, _) <- Run_loop fuel names stopTask 0 (false, false, false) ;;
  Run_finish stopTask startAt preempted ;;
  ret None.

(** ** Stop *)

Definition close_statUpdaterStop : M unit :=
  fun w =>
    if statUpdaterStop (pl w) then Panic "close of closed channel" w
    else Ok tt (log EvCloseStatUpdaterStop (write (set_statUpdaterStop true) w)).

(** Once [statUpdaterStop] is closed an updater that still serves takes
    its stop branch. *)
Definition updaters_react (w : World) : World :=
  if statUpdaterStop (pl w) then
    let w1 := match pipelineUpdater w with
              | Serving => pipelineAndTaskStatUpdater_stop w
              | _ => w
              end in
    match pluginUpdater w1 with
    | Serving => pluginStatUpdater_stop w1
    | _ => w1
    end
  else w.

(** [<-p.statUpdaterDone]: the rendezvous with an updater that is sending
    its acknowledgement; with none, [Stop] stays blocked. *)
Definition recv_statUpdaterDone : M unit :=
  fun w =>
    let w1 := updaters_react w in
    match pipelineUpdater w1, pluginUpdater w1 with
    | Acking, _ =>
        Ok tt (log (EvAck PipelineUpdater)
                 (write (fun p => set_statUpdaterDone (S (statUpdaterDone p)) p)
                    (set_pipelineUpdater Exited w1)))
    | _, Acking =>
        Ok tt (log (EvAck PluginUpdater)
                 (write (fun p => set_statUpdaterDone (S (statUpdaterDone p)) p)
                    (set_pluginUpdater Exited w1)))
    | _, _ => Blocked w1
    end.

(** Lines 231-236. *)
Definition Stop_drain : M unit :=
  close_statUpdaterStop ;;
  recv_statUpdaterDone ;;
  recv_statUpdaterDone ;;
  lift (set_stopCall StopReturned).

(** Lines 226-236, for the [Stop] that won the CAS: [<-p.done] returns once
    the driver has closed [done]. *)
Definition Stop_resume : M unit :=
  fun w =>
    match stopCall w with
    | StopWaitsDone =>
        if done (pl w) then Stop_drain (log EvWaitDone w) else Blocked w
    | StopDrains => Stop_drain w
    | NoStop | StopReturned => Ok tt w
    end.

Definition Stop (scheduled : bool) : M unit :=
  fun w =>
    if stopped (pl w) =? 0 then Stop_resume (Stop_enter scheduled w)
    else Ok tt (Stop_enter scheduled w).

(** ** GetPipelineInstance *)

Record PipelineCommonConfig := {
  Name : string;
  PluginNames : list string
}.

Record PipelineSpec := { Config : PipelineCommonConfig }.

(** What the new pipeline will meet: the clock and the schedule of the
    other goroutines. *)
Record Schedule := {
  clock0 : Z;
  interleave0 : list (list EnvAction);
  runs0 : list PluginRun
}.

Definition GetPipelineInstance {C : Type} (spec : PipelineSpec)
    (ctx : option C) (statistics : option PipelineStatistics)
    (m : option R) (sched : Schedule) : World + error :=
  match ctx with
  | None => inr "context object is nil"
  | Some _ =>
  match statistics with
  | None => inr "statistics object is nil"
  | Some st =>
  match m with
  | None => inr "model object is nil"
  | Some r =>
      let pipeline :=
        {| conf_Name := Name (Config spec);
           conf_PluginNames := PluginNames (Config spec);
           rerunCancel := Some NoOpCancelFunc;
           stopCancel := Some NoOpCancelFunc;
           scheduleCancel := Some NoOpCancelFunc;
           started := 0; stopped := 0;
           runningPluginName := "";
           runningPluginGeneration := 0;
           pipelineAndTaskStatChan := [];
           pluginStatChan := [];
           pluginUpdateInfoChan := [];
           statUpdaterStop := false;
           statUpdaterDone := 0;
           done := false |} in
      (* go pipeline.pipelineAndTaskStatUpdater(); go pipeline.pluginStatUpdater() *)
      inl {| pl := pipeline; hist := [pipeline]; tk := newTask; reg := r;
             stats := st; clock := clock0 sched;
             preempted_cell := false; rerun_cell := false;
             interleave := interleave0 sched; runs := runs0 sched;
             trace := [];
             pipelineUpdater := Serving; pluginUpdater := Serving;
             stopCall := NoStop |}
  end end end.

End Driver.

Arguments World : clear implicits.
Arguments Ok {T R A} a w.
Arguments Panic {T R A} why w.
Arguments Blocked {T R A} w.
Arguments OutOfFuel {T R A}.
Arguments M {T R} A.

(** ** A task and a registry to run the driver on *)

(** Modelled from the spec: the task of task.go, which is not part of the
    sources at hand.  The spec gives a task a status, a result code and an
    error; [start] takes Pending to Running, [finish] yields Finished,
    [clearError] clears the error and restores the given code, and a cancel
    wrapper forwards every read to the task it wraps; its trigger is
    idempotent, marks the task with the cancel reason and moves it to
    Finishing unless it is already Finished.  The spec states no change of
    status for [SetError] and no outcome for [recover]: here [SetError]
    leaves the status alone and [recover] fails.  The numbers of the three
    cancel codes are not given either; any three distinct numbers do. *)
Record SpecTask := {
  st_status : task.TaskStatus;
  st_error : option error;
  st_code : task.TaskResultCode;
  st_fired : list task.CancelCode
}.

Definition cancelCode_eqb (a b : task.CancelCode) : bool :=
  match a, b with
  | task.CanceledByPipelineStopped, task.CanceledByPipelineStopped
  | task.CanceledByPipelinePreempted, task.CanceledByPipelinePreempted
  | task.CanceledByPluginUpdated, task.CanceledByPluginUpdated => true
  | _, _ => false
  end.

Definition cancelCode_value (c : task.CancelCode) : task.TaskResultCode :=
  match c with
  | task.CanceledByPipelineStopped => 1001
  | task.CanceledByPipelinePreempted => 1002
  | task.CanceledByPluginUpdated => 1003
  end.

Definition spec_withCancel (parent : TaskRef) (c : task.CancelCode)
    (t : SpecTask) : SpecTask :=
  {| st_status := st_status t; st_error := st_error t; st_code := st_code t;
     st_fired := filter (fun c' => negb (cancelCode_eqb c c')) (st_fired t) |}.

Definition spec_cancel (r : TaskRef) (t : SpecTask) : SpecTask :=
  match r with
  | BaseTask => t
  | CancelTask c _ =>
      if existsb (cancelCode_eqb c) (st_fired t) then t
      else
        {| st_status := match st_status t with
                        | task.Finished => task.Finished
                        | _ => task.Finishing
                        end;
           st_error := Some "task is canceled";
           st_code := cancelCode_value c;
           st_fired := c :: st_fired t |}
  end.

Definition spec_SetError (r : TaskRef) (e : error) (c : task.TaskResultCode)
    (t : SpecTask) : SpecTask :=
  {| st_status := st_status t; st_error := Some e; st_code := c;
     st_fired := st_fired t |}.

Definition spec_start (t : SpecTask) : SpecTask :=
  {| st_status := match st_status t with
                  | task.Pending => task.Running
                  | s => s
                  end;
     st_error := st_error t; st_code := st_code t; st_fired := st_fired t |}.

Definition spec_finish (r : TaskRef) (t : SpecTask) : SpecTask :=
  {| st_status := task.Finished;
     st_error := st_error t; st_code := st_code t; st_fired := st_fired t |}.

Definition spec_clearError (c : task.TaskResultCode) (t : SpecTask)
  : SpecTask :=
  {| st_status := st_status t; st_error := None; st_code := c;
     st_fired := st_fired t |}.

#[export] Instance SpecTaskModel : TaskModel SpecTask := {
  newTask := {| st_status := task.Pending; st_error := None; st_code := 0;
                st_fired := [] |};
  withCancel := spec_withCancel;
  cancel := spec_cancel;
  Status := fun _ t => st_status t;
  ResultCode := fun _ t => st_code t;
  Error := fun _ t => st_error t;
  Finished := fun _ t => match st_status t with
                         | task.Finished => true
                         | _ => false
                         end;
  SetError := spec_SetError;
  start := spec_start;
  finish := spec_finish;
  recover := fun _ _ _ _ t => (false, t);
  clearError := spec_clearError
}.

(** Modelled from the spec: the registry of model.go, which is not part of
    the sources at hand.  [getPluginInstance] resolves a known name to an
    instance, its type and its generation and counts the use; an unknown
    name is an error.  [releasePluginInstance] gives the use back;
    [dismissPluginInstance] releases and marks the instance unusable, so
    that the next lookup returns a fresh incarnation of a higher
    generation. *)
Record SpecRegistry := {
  known : list (string * plugins.PluginType);
  generation : Z;
  incarnation : nat;
  useCount : Z
}.

Fixpoint lookupPlugin (name : string)
    (l : list (string * plugins.PluginType)) : option plugins.PluginType :=
  match l with
  | [] => None
  | (n, ty) :: l' => if String.eqb n name then Some ty else lookupPlugin name l'
  end.

Definition spec_getPluginInstance (name : string) (forRun : bool)
    (r : SpecRegistry)
  : (option wrappedPlugin * plugins.PluginType * Z * option error)
    * SpecRegistry :=
  match lookupPlugin name (known r) with
  | None => ((None, plugins.OtherPlugin 0, 0, Some "plugin not found"), r)
  | Some ty =>
      ((Some {| wp_name := name; wp_type := ty;
                wp_incarnation := incarnation r |},
        ty, generation r, None),
       {| known := known r; generation := generation r;
          incarnation := incarnation r; useCount := useCount r + 1 |})
  end.

#[export] Instance SpecRegistryModel : RegistryModel SpecRegistry := {
  getPluginInstance := spec_getPluginInstance;
  releasePluginInstance := fun inst r =>
    match inst with
    | None => r
    | Some _ =>
        {| known := known r; generation := generation r;
           incarnation := incarnation r; useCount := useCount r - 1 |}
    end;
  dismissPluginInstance := fun _ r =>
    {| known := known r; generation := generation r + 1;
       incarnation := S (incarnation r); useCount := useCount r - 1 |}
}.

(** ** Vocabulary of the statements *)

(** The events [w'] has on top of [w]. *)
Definition new_events {T R} (w w' : World T R) : list Event :=
  firstn (List.length (trace w') - List.length (trace w)) (trace w').

(** Events that only another goroutine logs. *)
Definition is_env_event (e : Event) : bool :=
  match e with
  | EvCasStopped _ | EvLoadStarted _ | EvInvoke _ _ | EvCancel _ => true
  | _ => false
  end.

Definition sets_preempted (f : option cancelFunc) : bool :=
  match f with Some (PreemptClosure _) => true | _ => false end.

Definition sets_rerun (f : option cancelFunc) : bool :=
  match f with Some (RerunClosure _) => true | _ => false end.

(** No slot holds a closure over [preempted] (resp. [rerun]). *)
Definition no_preempt (p : Pipeline) : Prop :=
  sets_preempted (rerunCancel p) = false /\
  sets_preempted (stopCancel p) = false /\
  sets_preempted (scheduleCancel p) = false.

Definition no_rerun (p : Pipeline) : Prop :=
  sets_rerun (rerunCancel p) = false /\
  sets_rerun (stopCancel p) = false /\
  sets_rerun (scheduleCancel p) = false.

(** The slots as they are whenever no plugin runs: [rerunCancel] and
    [scheduleCancel] hold the no-op, [stopCancel] the no-op or the
    canceller of a task. *)
Definition plain (f : option cancelFunc) : Prop :=
  sets_preempted f = false /\ sets_rerun f = false.

Definition idle (p : Pipeline) : Prop :=
  rerunCancel p = Some NoOpCancelFunc /\
  scheduleCancel p = Some NoOpCancelFunc /\
  plain (stopCancel p).

Definition slots_nonnil (p : Pipeline) : Prop :=
  rerunCancel p <> None /\ stopCancel p <> None /\ scheduleCancel p <> None.

(** What is left of the schedule. *)
Definition schedule_size {T R} (w : World T R) : nat :=
  List.length (runs w) + List.length (interleave w).

(** * Properties *)

Section Properties.

Context {T R : Type} {TM : TaskModel T} {RM : RegistryModel R}.

Implicit Types w : World T R.

(** ** Traces *)

Lemma new_events_app w w' l :
  trace w' = (l ++ trace w)%list -> new_events w w' = l.
Proof.
  intros H. unfold new_events. rewrite H, length_app.
  replace (List.length l + List.length (trace w) - List.length (trace w))%nat
    with (List.length l + 0)%nat by lia.
  rewrite firstn_app_2. simpl. apply app_nil_r.
Qed.

(** [w'] extends the trace of [w] by [l]. *)
Definition extends w w' (l : list Event) : Prop :=
  trace w' = (l ++ trace w)%list.

Lemma extends_refl w : extends w w [].
Proof. reflexivity. Qed.

Lemma extends_trans w1 w2 w3 l1 l2 :
  extends w1 w2 l1 -> extends w2 w3 l2 -> extends w1 w3 (l2 ++ l1).
Proof.
  unfold extends. intros H1 H2. rewrite H2, H1. apply app_assoc.
Qed.

(** ** What the other goroutines can and cannot change *)

Definition is_plugin_event (e : Event) : bool :=
  match e with EvPluginSetError _ _ _ => true | _ => false end.

Definition allowed (by_plugin : bool) (e : Event) : bool :=
  is_env_event e || (by_plugin && is_plugin_event e).

(** [frame false] bounds what the other goroutines do between two steps of
    the driver; [frame true] what happens during [instance.Run], where the
    plugin may also set errors on the task. *)
Record frame (by_plugin : bool) w w' : Prop := {
  er_names : conf_PluginNames (pl w') = conf_PluginNames (pl w);
  er_rerunCancel : rerunCancel (pl w') = rerunCancel (pl w);
  er_stopCancel : stopCancel (pl w') = stopCancel (pl w);
  er_scheduleCancel : scheduleCancel (pl w') = scheduleCancel (pl w);
  er_started : started (pl w') = started (pl w);
  er_name : runningPluginName (pl w') = runningPluginName (pl w);
  er_gen : runningPluginGeneration (pl w') = runningPluginGeneration (pl w);
  er_done : done (pl w') = done (pl w);
  er_statUpdaterStop : statUpdaterStop (pl w') = statUpdaterStop (pl w);
  er_reg : reg w' = reg w;
  er_runs : runs w' = runs w;
  er_interleave : (List.length (interleave w') <= List.length (interleave w))%nat;
  er_stopped_set : stopped (pl w) <> 0 -> stopped (pl w') = stopped (pl w);
  er_stopped_01 : stopped (pl w) = 0 ->
                  stopped (pl w') = 0 \/ stopped (pl w') = 1;
  er_preempted : no_preempt (pl w) -> preempted_cell w' = preempted_cell w;
  er_rerun : no_rerun (pl w) -> rerun_cell w' = rerun_cell w;
  er_tk : by_plugin = false -> stopped (pl w') = 0 ->
          rerunCancel (pl w) = Some NoOpCancelFunc -> tk w' = tk w;
  er_trace : exists l, extends w w' l /\
               Forall (fun e => allowed by_plugin e = true) l
}.

Abbreviation env_rel := (frame false).

Lemma frame_refl b w : frame b w w.
Proof.
  constructor; auto. exists []. split; [apply extends_refl | constructor].
Qed.

Lemma frame_trans b w1 w2 w3 : frame b w1 w2 -> frame b w2 w3 -> frame b w1 w3.
Proof.
  intros A B.
  assert (Hslots : rerunCancel (pl w2) = rerunCancel (pl w1) /\
                   stopCancel (pl w2) = stopCancel (pl w1) /\
                   scheduleCancel (pl w2) = scheduleCancel (pl w1)).
  { repeat split; apply A. }
  destruct Hslots as (S1 & S2 & S3).
  constructor.
  - rewrite (er_names _ _ _ B). apply A.
  - rewrite (er_rerunCancel _ _ _ B). apply A.
  - rewrite (er_stopCancel _ _ _ B). apply A.
  - rewrite (er_scheduleCancel _ _ _ B). apply A.
  - rewrite (er_started _ _ _ B). apply A.
  - rewrite (er_name _ _ _ B). apply A.
  - rewrite (er_gen _ _ _ B). apply A.
  - rewrite (er_done _ _ _ B). apply A.
  - rewrite (er_statUpdaterStop _ _ _ B). apply A.
  - rewrite (er_reg _ _ _ B). apply A.
  - rewrite (er_runs _ _ _ B). apply A.
  - pose proof (er_interleave _ _ _ A). pose proof (er_interleave _ _ _ B). lia.
  - intros H. pose proof (er_stopped_set _ _ _ A H) as E.
    rewrite (er_stopped_set _ _ _ B); congruence.
  - intros H. destruct (er_stopped_01 _ _ _ A H) as [H0 | H1].
    + apply (er_stopped_01 _ _ _ B H0).
    + right. rewrite (er_stopped_set _ _ _ B); congruence.
  - intros H. rewrite (er_preempted _ _ _ B).
    + apply (er_preempted _ _ _ A H).
    + unfold no_preempt in *. now rewrite S1, S2, S3.
  - intros H. rewrite (er_rerun _ _ _ B).
    + apply (er_rerun _ _ _ A H).
    + unfold no_rerun in *. now rewrite S1, S2, S3.
  - intros Hb H3 H1.
    assert (H2 : stopped (pl w2) = 0).
    { destruct (Z.eq_dec (stopped (pl w2)) 0) as [E | E]; auto.
      rewrite (er_stopped_set _ _ _ B E) in H3. contradiction. }
    rewrite (er_tk _ _ _ B Hb H3) by congruence. apply (er_tk _ _ _ A Hb H2 H1).
  - destruct (er_trace _ _ _ A) as (l1 & E1 & F1).
    destruct (er_trace _ _ _ B) as (l2 & E2 & F2).
    exists (l2 ++ l1)%list. split; [eapply extends_trans; eauto |].
    apply Forall_app; auto.
Qed.

Lemma invoke_spec (f : option cancelFunc) w :
  pl (invoke f w) = pl w /\ reg (invoke f w) = reg w /\
  runs (invoke f w) = runs w /\ interleave (invoke f w) = interleave w /\
  (sets_preempted f = false -> preempted_cell (invoke f w) = preempted_cell w) /\
  (sets_rerun f = false -> rerun_cell (invoke f w) = rerun_cell w) /\
  (f = Some NoOpCancelFunc -> invoke f w = w) /\
  exists l, extends w (invoke f w) l /\
            forall b, Forall (fun e => allowed b e = true) l.
Proof.
  destruct f as [[ | t | t | t] | ]; cbn; repeat split; auto;
    try discriminate;
    solve [ exists []; split; [reflexivity | constructor]
          | exists [EvCancel t]; split; [reflexivity | repeat constructor] ].
Qed.

Lemma Stop_enter_env scheduled w : env_rel w (Stop_enter scheduled w).
Proof.
  unfold Stop_enter.
  destruct (Z.eqb_spec (stopped (pl w)) 0) as [E | E].
  - set (w1 := log (EvCasStopped true) (write (set_stopped 1) w)).
    set (slot := if scheduled then SlotSchedule else SlotStop).
    set (f := if scheduled then scheduleCancel (pl w1) else stopCancel (pl w1)).
    set (w2 := log (EvInvoke slot f) w1).
    destruct (invoke_spec f w2) as (Hpl & Hreg & Hruns & Hint & Hp & Hr & _ & l & Hl & Fl).
    cbv zeta.
    constructor; cbn; rewrite ?Hpl, ?Hreg, ?Hruns, ?Hint; cbn; auto;
      try contradiction; try discriminate.
    + intros (_ & H2 & H3). rewrite Hp; [reflexivity | ].
      subst f; cbn; now destruct scheduled.
    + intros (_ & H2 & H3). rewrite Hr; [reflexivity | ].
      subst f; cbn; now destruct scheduled.
    + exists (EvLoadStarted (started (pl w)) :: l ++ [EvInvoke slot f; EvCasStopped true])%list.
      split.
      * unfold extends in *. cbn. rewrite Hl. cbn.
        now rewrite <- app_assoc.
      * constructor; auto. apply Forall_app; split; auto; repeat constructor.
  - constructor; cbn; auto; try contradiction.
    exists [EvCasStopped false]. split; [reflexivity | repeat constructor].
Qed.

Lemma listener_handle_env info w : env_rel w (listener_handle info w).
Proof.
  unfold listener_handle.
  destruct (negb (String.eqb (runningPluginName (pl w)) (plugin_Name info))
            || (runningPluginGeneration (pl w) >? instanceGeneration info)).
  - apply frame_refl.
  - set (f := rerunCancel (pl w)).
    set (w1 := log (EvInvoke SlotRerun f) w).
    destruct (invoke_spec f w1) as (Hpl & Hreg & Hruns & Hint & Hp & Hr & Hn & l & Hl & Fl).
    constructor; rewrite ?Hpl, ?Hreg, ?Hruns, ?Hint; cbn; auto.
    + intros (H1 & _). rewrite Hp; auto.
    + intros (H1 & _). rewrite Hr; auto.
    + intros _ _ H. rewrite Hn; auto.
    + exists (l ++ [EvInvoke SlotRerun f])%list. split.
      * unfold extends in *. rewrite Hl. cbn. now rewrite <- app_assoc.
      * apply Forall_app; split; auto; repeat constructor.
Qed.

Lemma env_step_env a w : env_rel w (env_step a w).
Proof.
  destruct a as [scheduled | info | | | d]; cbn.
  - apply Stop_enter_env.
  - apply listener_handle_env.
  - unfold pipelineAndTaskStatUpdater_recv.
    destruct (pipelineUpdater w), (pipelineAndTaskStatChan (pl w));
      try apply frame_refl.
    constructor; cbn; auto. exists []. split; [reflexivity | constructor].
  - unfold pluginStatUpdater_recv.
    destruct (pluginUpdater w), (pluginStatChan (pl w));
      try apply frame_refl.
    constructor; cbn; auto. exists []. split; [reflexivity | constructor].
  - constructor; cbn; auto. exists []. split; [reflexivity | constructor].
Qed.

Lemma env_steps_env b w : env_rel w (env_steps b w).
Proof.
  revert w. induction b as [ | a b IH]; intros w; cbn.
  - apply frame_refl.
  - eapply frame_trans; [apply env_step_env | apply IH].
Qed.

Lemma invoke_interleave (f : option cancelFunc) w :
  interleave (invoke f w) = interleave w.
Proof. now destruct f as [[ | t | t | t] | ]. Qed.

Lemma env_step_interleave a w : interleave (env_step a w) = interleave w.
Proof.
  destruct a as [scheduled | info | | | d]; cbn; auto.
  - unfold Stop_enter. destruct (stopped (pl w) =? 0); cbn; auto.
    now rewrite invoke_interleave.
  - unfold listener_handle.
    destruct (negb _ || _); auto. now rewrite invoke_interleave.
  - unfold pipelineAndTaskStatUpdater_recv.
    now destruct (pipelineUpdater w), (pipelineAndTaskStatChan (pl w)).
  - unfold pluginStatUpdater_recv.
    now destruct (pluginUpdater w), (pluginStatChan (pl w)).
Qed.

Lemma env_steps_interleave b w : interleave (env_steps b w) = interleave w.
Proof.
  revert w. induction b as [ | a b IH]; intros w; cbn; auto.
  unfold env_steps in IH. now rewrite IH, env_step_interleave.
Qed.

Lemma yield_interleave w : interleave (yield w) = tl (interleave w).
Proof.
  unfold yield. destruct (interleave w) as [ | b rest] eqn:E; cbn; auto.
  now rewrite env_steps_interleave.
Qed.

Lemma yield_nil w : interleave w = [] -> yield w = w.
Proof. unfold yield. now intros ->. Qed.

Lemma yield_env w : env_rel w (yield w).
Proof.
  unfold yield. destruct (interleave w) as [ | b rest] eqn:E.
  - apply frame_refl.
  - eapply frame_trans; [ | apply env_steps_env].
    constructor; cbn; auto; try (rewrite E; cbn; lia).
    exists []. split; [reflexivity | constructor].
Qed.

Lemma frame_weaken w w' : frame false w w' -> frame true w w'.
Proof.
  intros A. constructor; try apply A.
  - discriminate.
  - destruct (er_trace _ _ _ A) as (l & E & F). exists l. split; auto.
    eapply Forall_impl; [ | apply F]. unfold allowed. cbn.
    intros e He. rewrite orb_false_r in He. now rewrite He.
Qed.

Lemma run_step_frame t s w : frame true w (run_step t s w).
Proof.
  destruct s as [a | e c]; cbn.
  - apply frame_weaken, env_step_env.
  - constructor; cbn; auto; try discriminate.
    exists [EvPluginSetError t e c]. split; [reflexivity | repeat constructor].
Qed.

Lemma run_steps_frame t l w : frame true w (run_steps t l w).
Proof.
  revert w. induction l as [ | s l IH]; intros w; cbn.
  - apply frame_refl.
  - eapply frame_trans; [apply run_step_frame | apply IH].
Qed.

Lemma run_steps_interleave t l w :
  interleave (run_steps t l w) = interleave w.
Proof.
  revert w. induction l as [ | s l IH]; intros w; cbn; auto.
  unfold run_steps in IH. rewrite IH.
  destruct s; cbn; auto using env_step_interleave.
Qed.

(** ** Rewriting through a turn of the other goroutines *)

Lemma yield_names w : conf_PluginNames (pl (yield w)) = conf_PluginNames (pl w).
Proof. apply (er_names _ _ _ (yield_env w)). Qed.

Lemma yield_rerunCancel w : rerunCancel (pl (yield w)) = rerunCancel (pl w).
Proof. apply (er_rerunCancel _ _ _ (yield_env w)). Qed.

Lemma yield_stopCancel w : stopCancel (pl (yield w)) = stopCancel (pl w).
Proof. apply (er_stopCancel _ _ _ (yield_env w)). Qed.

Lemma yield_scheduleCancel w :
  scheduleCancel (pl (yield w)) = scheduleCancel (pl w).
Proof. apply (er_scheduleCancel _ _ _ (yield_env w)). Qed.

Lemma yield_started w : started (pl (yield w)) = started (pl w).
Proof. apply (er_started _ _ _ (yield_env w)). Qed.

Lemma yield_name w : runningPluginName (pl (yield w)) = runningPluginName (pl w).
Proof. apply (er_name _ _ _ (yield_env w)). Qed.

Lemma yield_gen w :
  runningPluginGeneration (pl (yield w)) = runningPluginGeneration (pl w).
Proof. apply (er_gen _ _ _ (yield_env w)). Qed.

Lemma yield_done w : done (pl (yield w)) = done (pl w).
Proof. apply (er_done _ _ _ (yield_env w)). Qed.

Lemma yield_statUpdaterStop w :
  statUpdaterStop (pl (yield w)) = statUpdaterStop (pl w).
Proof. apply (er_statUpdaterStop _ _ _ (yield_env w)). Qed.

Lemma yield_reg w : reg (yield w) = reg w.
Proof. apply (er_reg _ _ _ (yield_env w)). Qed.

Lemma yield_runs w : runs (yield w) = runs w.
Proof. apply (er_runs _ _ _ (yield_env w)). Qed.

Lemma yield_preempted w :
  no_preempt (pl w) -> preempted_cell (yield w) = preempted_cell w.
Proof. apply (er_preempted _ _ _ (yield_env w)). Qed.

Lemma yield_rerun w : no_rerun (pl w) -> rerun_cell (yield w) = rerun_cell w.
Proof. apply (er_rerun _ _ _ (yield_env w)). Qed.

Lemma run_steps_names t l w :
  conf_PluginNames (pl (run_steps t l w)) = conf_PluginNames (pl w).
Proof. apply (er_names _ _ _ (run_steps_frame t l w)). Qed.

Lemma run_steps_rerunCancel t l w :
  rerunCancel (pl (run_steps t l w)) = rerunCancel (pl w).
Proof. apply (er_rerunCancel _ _ _ (run_steps_frame t l w)). Qed.

Lemma run_steps_stopCancel t l w :
  stopCancel (pl (run_steps t l w)) = stopCancel (pl w).
Proof. apply (er_stopCancel _ _ _ (run_steps_frame t l w)). Qed.

Lemma run_steps_scheduleCancel t l w :
  scheduleCancel (pl (run_steps t l w)) = scheduleCancel (pl w).
Proof. apply (er_scheduleCancel _ _ _ (run_steps_frame t l w)). Qed.

Lemma run_steps_started t l w :
  started (pl (run_steps t l w)) = started (pl w).
Proof. apply (er_started _ _ _ (run_steps_frame t l w)). Qed.

Lemma run_steps_name t l w :
  runningPluginName (pl (run_steps t l w)) = runningPluginName (pl w).
Proof. apply (er_name _ _ _ (run_steps_frame t l w)). Qed.

Lemma run_steps_gen t l w :
  runningPluginGeneration (pl (run_steps t l w)) =
  runningPluginGeneration (pl w).
Proof. apply (er_gen _ _ _ (run_steps_frame t l w)). Qed.

Lemma run_steps_done t l w : done (pl (run_steps t l w)) = done (pl w).
Proof. apply (er_done _ _ _ (run_steps_frame t l w)). Qed.

Lemma run_steps_statUpdaterStop t l w :
  statUpdaterStop (pl (run_steps t l w)) = statUpdaterStop (pl w).
Proof. apply (er_statUpdaterStop _ _ _ (run_steps_frame t l w)). Qed.

Lemma run_steps_reg t l w : reg (run_steps t l w) = reg w.
Proof. apply (er_reg _ _ _ (run_steps_frame t l w)). Qed.

Lemma run_steps_runs t l w : runs (run_steps t l w) = runs w.
Proof. apply (er_runs _ _ _ (run_steps_frame t l w)). Qed.

Lemma run_steps_preempted t l w :
  no_preempt (pl w) -> preempted_cell (run_steps t l w) = preempted_cell w.
Proof. apply (er_preempted _ _ _ (run_steps_frame t l w)). Qed.

Lemma run_steps_rerun t l w :
  no_rerun (pl w) -> rerun_cell (run_steps t l w) = rerun_cell w.
Proof. apply (er_rerun _ _ _ (run_steps_frame t l w)). Qed.

(** The events of a turn, and of a plugin run. *)
Definition yield_events w : list Event := new_events w (yield w).

Definition run_events t l w : list Event := new_events w (run_steps t l w).

Lemma trace_yield w : trace (yield w) = (yield_events w ++ trace w)%list.
Proof.
  destruct (er_trace _ _ _ (yield_env w)) as (l & E & _).
  unfold yield_events. now rewrite (new_events_app _ _ _ E).
Qed.

Lemma yield_events_env w :
  Forall (fun e => is_env_event e = true) (yield_events w).
Proof.
  destruct (er_trace _ _ _ (yield_env w)) as (l & E & F).
  unfold yield_events. rewrite (new_events_app _ _ _ E).
  eapply Forall_impl; [ | apply F]. unfold allowed. cbn.
  intros e He. now rewrite orb_false_r in He.
Qed.

Lemma trace_run_steps t l w :
  trace (run_steps t l w) = (run_events t l w ++ trace w)%list.
Proof.
  destruct (er_trace _ _ _ (run_steps_frame t l w)) as (l' & E & _).
  unfold run_events. now rewrite (new_events_app _ _ _ E).
Qed.

Lemma run_events_allowed t l w :
  Forall (fun e => allowed true e = true) (run_events t l w).
Proof.
  destruct (er_trace _ _ _ (run_steps_frame t l w)) as (l' & E & F).
  unfold run_events. now rewrite (new_events_app _ _ _ E).
Qed.

Lemma yield_nil_events w : interleave w = [] -> yield_events w = [].
Proof.
  intros H. unfold yield_events. rewrite (yield_nil _ H).
  apply (new_events_app w w []). reflexivity.
Qed.

Create Rewrite HintDb frame.

#[local] Hint Rewrite yield_names yield_rerunCancel yield_stopCancel
  yield_scheduleCancel yield_started yield_name yield_gen yield_done
  yield_statUpdaterStop yield_reg yield_runs yield_interleave
  run_steps_names run_steps_rerunCancel run_steps_stopCancel
  run_steps_scheduleCancel run_steps_started run_steps_name run_steps_gen
  run_steps_done run_steps_statUpdaterStop run_steps_reg run_steps_runs
  run_steps_interleave trace_yield trace_run_steps : frame.

(** ** Inverting a run of the monad *)

Lemma bind_Ok {A B} (m : M A) (f : A -> M B) w b w' :
  bind m f w = Ok b w' ->
  exists a w1, m w = Ok a w1 /\ f a w1 = Ok b w'.
Proof.
  unfold bind. destruct (m w) as [a w1 | | | ]; try discriminate.
  intros H. now exists a, w1.
Qed.

Lemma bind_Ok_eq {A B} (m : M A) (f : A -> M B) w a w1 :
  m w = Ok a w1 -> bind m f w = f a w1.
Proof. unfold bind. now intros ->. Qed.

Arguments yield : simpl never.
Arguments run_steps : simpl never.
Arguments env_steps : simpl never.

(** ** The hot-update listener *)

(** C2.  The listener calls [rerunCancel] for a notice exactly when the
    notice names the running plugin and the running generation is at most
    the generation of the notice; in that case it calls the function held
    in the slot, and a notice of a generation below the running one leaves
    the world untouched. *)
Theorem listener_reruns_iff_stale info w :
  ((exists f, In (EvInvoke SlotRerun f) (new_events w (listener_handle info w)))
   <-> runningPluginName (pl w) = plugin_Name info /\
       runningPluginGeneration (pl w) <= instanceGeneration info) /\
  (runningPluginName (pl w) = plugin_Name info /\
   runningPluginGeneration (pl w) <= instanceGeneration info ->
   listener_handle info w =
   invoke (rerunCancel (pl w))
     (log (EvInvoke SlotRerun (rerunCancel (pl w))) w)) /\
  (runningPluginGeneration (pl w) > instanceGeneration info ->
   listener_handle info w = w /\
   forall f, ~ In (EvInvoke SlotRerun f) (new_events w (listener_handle info w))).
Proof.
  unfold listener_handle.
  destruct (String.eqb_spec (runningPluginName (pl w)) (plugin_Name info))
    as [En | En];
  destruct (Z.gtb_spec (runningPluginGeneration (pl w)) (instanceGeneration info))
    as [Eg | Eg]; cbn [negb orb].
  1, 3, 4:
    rewrite (new_events_app w w [] eq_refl);
    (split; [split; [intros (f & []) | intros (? & ?); (contradiction || lia)] | ]);
    (split; [intros (? & ?); (contradiction || lia) | ]);
    intros _; (split; [reflexivity | intros f []]).
  set (f := rerunCancel (pl w)). set (w1 := log (EvInvoke SlotRerun f) w).
  destruct (invoke_spec f w1) as (_ & _ & _ & _ & _ & _ & _ & l & Hl & _).
  assert (E : new_events w (invoke f w1) = (l ++ [EvInvoke SlotRerun f])%list).
  { apply new_events_app. unfold extends in Hl. rewrite Hl. subst w1. cbn.
    now rewrite <- app_assoc. }
  rewrite E. split; [split; [auto | intros _] | split; [reflexivity | lia]].
  exists f. apply in_or_app. right. now left.
Qed.

(** ** Every step of the driver returns or panics, and only consumes the
    schedule *)

Definition shrink w w' : Prop :=
  (List.length (runs w') <= List.length (runs w))%nat /\
  (List.length (interleave w') <= List.length (interleave w))%nat.

Definition tame {A} (m : M A) : Prop :=
  forall w,
    match m w with
    | Ok _ w' | Panic _ w' => shrink w w'
    | Blocked _ | OutOfFuel => False
    end.

Lemma shrink_refl w : shrink w w.
Proof. split; lia. Qed.

Lemma shrink_trans w1 w2 w3 : shrink w1 w2 -> shrink w2 w3 -> shrink w1 w3.
Proof. unfold shrink. intros [] []. split; lia. Qed.

Lemma tame_ret {A} (a : A) : tame (ret a).
Proof. intros w. apply shrink_refl. Qed.

Lemma tame_bind {A B} (m : M A) (f : A -> M B) :
  tame m -> (forall a, tame (f a)) -> tame (bind m f).
Proof.
  intros Hm Hf w. unfold bind. specialize (Hm w).
  destruct (m w) as [a w1 | why w1 | w1 | ]; auto.
  specialize (Hf a w1).
  destruct (f a w1) as [b w2 | why w2 | w2 | ]; auto;
    eapply shrink_trans; eauto.
Qed.

Lemma tame_gets {A} (f : World T R -> A) : tame (gets f).
Proof. intros w. apply shrink_refl. Qed.

Lemma tame_lift (f : World T R -> World T R) :
  (forall w, runs (f w) = runs w /\ interleave (f w) = interleave w) ->
  tame (lift f).
Proof.
  intros H w. cbn. unfold shrink. destruct (H w) as [-> ->]. split; lia.
Qed.

Lemma shrink_yield w : shrink w (yield w).
Proof.
  split; [rewrite yield_runs; lia | ].
  rewrite yield_interleave. destruct (interleave w); cbn; lia.
Qed.

Lemma tame_load_stopped site : tame (load_stopped site).
Proof. intros w. cbn. apply (shrink_yield w). Qed.

Lemma tame_cas_started : tame cas_started.
Proof.
  intros w. unfold cas_started.
  destruct (started (pl (yield w)) =? 0); apply (shrink_yield w).
Qed.

Lemma tame_store_started v : tame (store_started v).
Proof. intros w. cbn. apply (shrink_yield w). Qed.

Lemma tame_deref instance : tame (deref instance).
Proof. intros w. destruct instance; apply shrink_refl. Qed.

Lemma tame_t_Error site t : tame (t_Error site t).
Proof. intros w. cbn. split; cbn; lia. Qed.

Lemma tame_t_recover name ty st t : tame (t_recover name ty st t).
Proof. intros w. cbn. split; cbn; lia. Qed.

Lemma tame_m_getPluginInstance name forRun :
  tame (m_getPluginInstance name forRun).
Proof. intros w. cbn. split; cbn; lia. Qed.

Lemma tame_close_done : tame close_done.
Proof.
  intros w. unfold close_done. destruct (done (pl w)); split; cbn; lia.
Qed.

Lemma tame_instance_Run i t : tame (instance_Run i t).
Proof.
  intros w. unfold instance_Run. cbn.
  destruct (runs w) as [ | r rest] eqn:E; unfold shrink; cbn.
  - rewrite E. cbn. lia.
  - rewrite run_steps_runs, run_steps_interleave. cbn. rewrite E. cbn. lia.
Qed.

Lemma tame_offer_pluginStat d : tame (offer_pluginStat d).
Proof.
  intros w. unfold offer_pluginStat, lift.
  destruct (snd (offer (pluginStatChan (pl w)) d)); split; cbn; lia.
Qed.

Lemma tame_offer_pipelineStat d : tame (offer_pipelineStat d).
Proof.
  intros w. unfold offer_pipelineStat, lift.
  destruct (snd (offer (pipelineAndTaskStatChan (pl w)) d)); split; cbn; lia.
Qed.

Ltac tame_step :=
  first
    [ apply tame_ret | apply tame_gets | apply tame_load_stopped
    | apply tame_cas_started | apply tame_store_started | apply tame_deref
    | apply tame_t_Error | apply tame_t_recover
    | apply tame_m_getPluginInstance | apply tame_close_done
    | apply tame_instance_Run
    | apply tame_offer_pluginStat | apply tame_offer_pipelineStat
    | apply tame_lift; intros; split; reflexivity
    | apply tame_bind; [ | intros ]
    | match goal with
      | |- tame (match ?x with _ => _ end) => destruct x
      | |- tame (when ?b _) => unfold when
      end ].

Ltac tame_auto := repeat tame_step.

Lemma tame_runPlugin instance pluginType gen input :
  tame (runPlugin instance pluginType gen input).
Proof.
  unfold runPlugin, runPlugin_prepare, runPlugin_invoke, runPlugin_publish,
    runPlugin_settle, Now, t_clearError, t_SetError, m_dismissPluginInstance.
  tame_auto.
Qed.

Lemma tame_Run_dispatch instance t : tame (Run_dispatch instance t).
Proof. unfold Run_dispatch, t_finish. tame_auto. Qed.

Lemma tame_Run_body names t i flags : tame (Run_body names t i flags).
Proof.
  unfold Run_body, Run_invoke, t_SetError, t_start, m_releasePluginInstance.
  repeat first [apply tame_runPlugin | apply tame_Run_dispatch | tame_step].
Qed.

Lemma tame_Run_finish t startAt preempted : tame (Run_finish t startAt preempted).
Proof.
  unfold Run_finish, t_finish, Now. tame_auto.
Qed.

(** ** runPlugin, phase by phase *)

(** The task the plugin is given: [input] wrapped for preemption when the
    plugin is a source, then wrapped for the hot update. *)
Definition preemptTask (input : TaskRef) : TaskRef :=
  CancelTask task.CanceledByPipelinePreempted input.

Definition innerTask (ty : plugins.PluginType) (input : TaskRef) : TaskRef :=
  match ty with
  | plugins.SourcePlugin => preemptTask input
  | plugins.OtherPlugin _ => input
  end.

Definition pluginTask (ty : plugins.PluginType) (input : TaskRef) : TaskRef :=
  CancelTask task.CanceledByPluginUpdated (innerTask ty input).

(** The world after lines 242-254. *)
Definition wrapped (ty : plugins.PluginType) (input : TaskRef) w : World T R :=
  match ty with
  | plugins.SourcePlugin =>
      write (set_scheduleCancel (Some (PreemptClosure (preemptTask input))))
        (with_tk (withCancel input task.CanceledByPipelinePreempted)
           (set_preempted_cell false w))
  | plugins.OtherPlugin _ => set_preempted_cell false w
  end.

(** The world when [instance.Run] is called (after line 267). *)
Definition prepared (i : wrappedPlugin) (ty : plugins.PluginType) (gen : Z)
    (input : TaskRef) w : World T R :=
  write (set_runningPluginName (wp_name i))
    (write (set_runningPluginGeneration gen)
       (write (set_rerunCancel (Some (RerunClosure (pluginTask ty input))))
          (with_tk (withCancel (innerTask ty input) task.CanceledByPluginUpdated)
             (set_rerun_cell false (wrapped ty input w))))).

Lemma runPlugin_prepare_eq i ty gen input w :
  runPlugin_prepare (Some i) ty gen input w =
  Ok (i, pluginTask ty input, ResultCode input (tk (wrapped ty input w)))
     (prepared i ty gen input w).
Proof. destruct ty; reflexivity. Qed.

Lemma runPlugin_prepare_nil ty gen input w :
  exists w', runPlugin_prepare None ty gen input w =
             Panic "nil pointer dereference" w'.
Proof. destruct ty; eexists; reflexivity. Qed.

(** The script the next call of [instance.Run] plays. *)
Definition script w : PluginRun :=
  match runs w with
  | [] => {| steps := []; returns := None |}
  | r :: _ => r
  end.

(** The world when [instance.Run] returns. *)
Definition ran (i : wrappedPlugin) (t : TaskRef) w : World T R :=
  run_steps t (steps (script w))
    (set_runs (tl (runs w)) (log (EvPluginRunEnter i t (pl w)) w)).

Definition exited (i : wrappedPlugin) (t : TaskRef) w : World T R :=
  log (EvPluginRunExit i (returns (script w)) (pl (ran i t w))) (ran i t w).

Lemma set_runs_same w : set_runs (runs w) w = w.
Proof. now destruct w. Qed.

Lemma instance_Run_eq i t w :
  instance_Run i t w = Ok (returns (script w)) (exited i t w).
Proof.
  unfold instance_Run, exited, ran, script. cbn.
  destruct (runs w) as [ | r rest] eqn:E; cbn; auto.
  unfold run_steps. cbn.
  replace (set_runs [] (log (EvPluginRunEnter i t (pl w)) w))
    with (log (EvPluginRunEnter i t (pl w)) w); auto.
  rewrite <- (set_runs_same (log (EvPluginRunEnter i t (pl w)) w)) at 1.
  cbn. now rewrite E.
Qed.

(** The world after line 276. *)
Definition reset w : World T R :=
  write (set_scheduleCancel (Some NoOpCancelFunc))
    (write (set_rerunCancel (Some NoOpCancelFunc))
       (write (set_runningPluginGeneration 0)
          (write (set_runningPluginName "") w))).

Lemma runPlugin_invoke_eq i t w :
  runPlugin_invoke i t w =
  Ok (clock w, returns (script w), clock (exited i t w)) (reset (exited i t w)).
Proof.
  unfold runPlugin_invoke.
  rewrite (bind_Ok_eq Now _ w (clock w) w eq_refl).
  rewrite (bind_Ok_eq _ _ _ _ _ (instance_Run_eq i t w)).
  reflexivity.
Qed.

(** Lines 278-314, from the world the reset leaves. *)
Definition runPlugin_rest (i : wrappedPlugin) (t : TaskRef)
    (originalCode : task.TaskResultCode) (startAt : Z) (err : option error)
    (finishAt : Z) : M (bool * bool * bool) :=
  bind (runPlugin_publish i t startAt err finishAt) (fun _ =>
  bind (runPlugin_settle i t originalCode err) (fun _ =>
  bind (gets preempted_cell) (fun preempted =>
  bind (gets rerun_cell) (fun rerun =>
  bind (lift (log (EvRunPluginReturn (is_nil err) preempted rerun))) (fun _ =>
  ret (is_nil err, preempted, rerun)))))).

Lemma runPlugin_eq i ty gen input w :
  runPlugin (Some i) ty gen input w =
  runPlugin_rest i (pluginTask ty input)
    (ResultCode input (tk (wrapped ty input w)))
    (clock (prepared i ty gen input w))
    (returns (script (prepared i ty gen input w)))
    (clock (exited i (pluginTask ty input) (prepared i ty gen input w)))
    (reset (exited i (pluginTask ty input) (prepared i ty gen input w))).
Proof.
  unfold runPlugin.
  rewrite (bind_Ok_eq _ _ _ _ _ (runPlugin_prepare_eq i ty gen input w)).
  cbv beta iota.
  rewrite (bind_Ok_eq _ _ _ _ _ (runPlugin_invoke_eq i _ _)).
  unfold runPlugin_rest. reflexivity.
Qed.

Lemma runPlugin_nil ty gen input w :
  exists w', runPlugin None ty gen input w = Panic "nil pointer dereference" w'.
Proof.
  destruct (runPlugin_prepare_nil ty gen input w) as (w' & E).
  exists w'. unfold runPlugin, bind. now rewrite E.
Qed.

Lemma tame_runPlugin_rest i t oc sa err fa : tame (runPlugin_rest i t oc sa err fa).
Proof.
  unfold runPlugin_rest, runPlugin_publish, runPlugin_settle, t_clearError,
    t_SetError, m_dismissPluginInstance.
  tame_auto.
Qed.

(** ** What the driver itself leaves alone outside [instance.Run] and the
    writes to the slots *)

Record calm w w' : Prop := {
  ca_names : conf_PluginNames (pl w') = conf_PluginNames (pl w);
  ca_rerunCancel : rerunCancel (pl w') = rerunCancel (pl w);
  ca_stopCancel : stopCancel (pl w') = stopCancel (pl w);
  ca_scheduleCancel : scheduleCancel (pl w') = scheduleCancel (pl w);
  ca_started : started (pl w') = started (pl w);
  ca_name : runningPluginName (pl w') = runningPluginName (pl w);
  ca_gen : runningPluginGeneration (pl w') = runningPluginGeneration (pl w);
  ca_done : done (pl w') = done (pl w);
  ca_statUpdaterStop : statUpdaterStop (pl w') = statUpdaterStop (pl w);
  ca_runs : runs w' = runs w;
  ca_interleave : (List.length (interleave w') <= List.length (interleave w))%nat;
  ca_stopped_set : stopped (pl w) <> 0 -> stopped (pl w') = stopped (pl w);
  ca_stopped_01 : stopped (pl w) = 0 ->
                  stopped (pl w') = 0 \/ stopped (pl w') = 1;
  ca_preempted : no_preempt (pl w) -> preempted_cell w' = preempted_cell w;
  ca_rerun : no_rerun (pl w) -> rerun_cell w' = rerun_cell w;
  ca_trace : exists l, extends w w' l
}.

Lemma frame_calm b w w' : frame b w w' -> calm w w'.
Proof.
  intros A. constructor; try apply A.
  destruct (er_trace _ _ _ A) as (l & E & _). now exists l.
Qed.

Lemma calm_refl w : calm w w.
Proof. apply (frame_calm false), frame_refl. Qed.

Lemma calm_trans w1 w2 w3 : calm w1 w2 -> calm w2 w3 -> calm w1 w3.
Proof.
  intros A B.
  assert (Hslots : rerunCancel (pl w2) = rerunCancel (pl w1) /\
                   stopCancel (pl w2) = stopCancel (pl w1) /\
                   scheduleCancel (pl w2) = scheduleCancel (pl w1)).
  { repeat split; apply A. }
  destruct Hslots as (S1 & S2 & S3).
  constructor.
  - rewrite (ca_names _ _ B). apply A.
  - rewrite (ca_rerunCancel _ _ B). apply A.
  - rewrite (ca_stopCancel _ _ B). apply A.
  - rewrite (ca_scheduleCancel _ _ B). apply A.
  - rewrite (ca_started _ _ B). apply A.
  - rewrite (ca_name _ _ B). apply A.
  - rewrite (ca_gen _ _ B). apply A.
  - rewrite (ca_done _ _ B). apply A.
  - rewrite (ca_statUpdaterStop _ _ B). apply A.
  - rewrite (ca_runs _ _ B). apply A.
  - pose proof (ca_interleave _ _ A). pose proof (ca_interleave _ _ B). lia.
  - intros H. pose proof (ca_stopped_set _ _ A H) as E.
    rewrite (ca_stopped_set _ _ B); congruence.
  - intros H. destruct (ca_stopped_01 _ _ A H) as [H0 | H1].
    + apply (ca_stopped_01 _ _ B H0).
    + right. rewrite (ca_stopped_set _ _ B); congruence.
  - intros H. rewrite (ca_preempted _ _ B).
    + apply (ca_preempted _ _ A H).
    + unfold no_preempt in *. now rewrite S1, S2, S3.
  - intros H. rewrite (ca_rerun _ _ B).
    + apply (ca_rerun _ _ A H).
    + unfold no_rerun in *. now rewrite S1, S2, S3.
  - destruct (ca_trace _ _ A) as (l1 & E1).
    destruct (ca_trace _ _ B) as (l2 & E2).
    exists (l2 ++ l1)%list. eapply extends_trans; eauto.
Qed.

(** A computation that always returns or panics, and is [calm]. *)
Definition calmly {A} (m : M A) : Prop :=
  forall w,
    match m w with
    | Ok _ w' | Panic _ w' => calm w w'
    | Blocked _ | OutOfFuel => False
    end.

Lemma calmly_ret {A} (a : A) : calmly (ret a).
Proof. intros w. apply calm_refl. Qed.

Lemma calmly_bind {A B} (m : M A) (f : A -> M B) :
  calmly m -> (forall a, calmly (f a)) -> calmly (bind m f).
Proof.
  intros Hm Hf w. unfold bind. specialize (Hm w).
  destruct (m w) as [a w1 | why w1 | w1 | ]; auto.
  specialize (Hf a w1).
  destruct (f a w1) as [b w2 | why w2 | w2 | ]; auto;
    eapply calm_trans; eauto.
Qed.

Lemma calmly_gets {A} (f : World T R -> A) : calmly (gets f).
Proof. intros w. apply calm_refl. Qed.

(** A step that only touches the task, the registry, the statistics
    channels or the trace. *)
Definition quiet_step (f : World T R -> World T R) : Prop :=
  forall w,
    conf_PluginNames (pl (f w)) = conf_PluginNames (pl w) /\
    rerunCancel (pl (f w)) = rerunCancel (pl w) /\
    stopCancel (pl (f w)) = stopCancel (pl w) /\
    scheduleCancel (pl (f w)) = scheduleCancel (pl w) /\
    started (pl (f w)) = started (pl w) /\
    stopped (pl (f w)) = stopped (pl w) /\
    runningPluginName (pl (f w)) = runningPluginName (pl w) /\
    runningPluginGeneration (pl (f w)) = runningPluginGeneration (pl w) /\
    done (pl (f w)) = done (pl w) /\
    statUpdaterStop (pl (f w)) = statUpdaterStop (pl w) /\
    runs (f w) = runs w /\ interleave (f w) = interleave w /\
    preempted_cell (f w) = preempted_cell w /\
    rerun_cell (f w) = rerun_cell w /\
    exists l, extends w (f w) l.

Lemma quiet_calm f w : quiet_step f -> calm w (f w).
Proof.
  intros H.
  destruct (H w) as (H1 & H2 & H3 & H4 & H5 & H6 & H7 & H8 & H9 & H10 & H11
                     & H12 & H13 & H14 & H15).
  constructor; auto; try lia; try (rewrite H12; lia);
    try (intros E; left; congruence).
Qed.

Lemma calmly_lift f : quiet_step f -> calmly (lift f).
Proof. intros H w. cbn. now apply quiet_calm. Qed.

Ltac quiet :=
  intros ?; cbn;
  try match goal with |- context [if ?c then _ else _] => destruct c; cbn end;
  repeat match goal with |- _ /\ _ => split end;
  try reflexivity;
  try first [ exists []; reflexivity
            | eexists [_]; reflexivity
            | eexists [_; _]; reflexivity ].

Lemma calmly_load_stopped site : calmly (load_stopped site).
Proof.
  intros w. cbn. eapply calm_trans.
  - apply (frame_calm false), yield_env.
  - apply (quiet_calm (log (EvLoadStopped site (stopped (pl (yield w)))))).
    quiet.
Qed.

Lemma calmly_t_Error site t : calmly (t_Error site t).
Proof.
  intros w. cbn.
  apply (quiet_calm (log (EvReadError site (Error t (tk w))))). quiet.
Qed.

Lemma calmly_t_recover name ty st t : calmly (t_recover name ty st t).
Proof.
  intros w. cbn.
  apply (quiet_calm (fun w =>
    log (EvRecover name ty st t (fst (recover name ty st t (tk w))))
      (with_tk (fun _ => snd (recover name ty st t (tk w))) w))).
  quiet.
Qed.

Lemma calmly_offer_pluginStat d : calmly (offer_pluginStat d).
Proof.
  unfold offer_pluginStat. apply calmly_lift. quiet.
Qed.

Lemma calmly_offer_pipelineStat d : calmly (offer_pipelineStat d).
Proof.
  unfold offer_pipelineStat. apply calmly_lift. quiet.
Qed.

Ltac calm_step :=
  first
    [ apply calmly_ret | apply calmly_gets | apply calmly_load_stopped
    | apply calmly_t_Error | apply calmly_t_recover
    | apply calmly_offer_pluginStat | apply calmly_offer_pipelineStat
    | apply calmly_lift; quiet
    | apply calmly_bind; [ | intros ]
    | match goal with
      | |- calmly (match ?x with _ => _ end) => destruct x
      | |- calmly (when ?b _) => unfold when
      end ].

Lemma calmly_publish i t sa err fa : calmly (runPlugin_publish i t sa err fa).
Proof. unfold runPlugin_publish. repeat calm_step. Qed.

Lemma calmly_settle i t oc err : calmly (runPlugin_settle i t oc err).
Proof.
  unfold runPlugin_settle, t_clearError, t_SetError, m_dismissPluginInstance.
  repeat calm_step.
Qed.

Lemma calmly_Run_dispatch instance t : calmly (Run_dispatch instance t).
Proof. unfold Run_dispatch, t_finish. repeat calm_step. Qed.

(** ** What a whole iteration of the loop leaves alone *)

Record steady w w' : Prop := {
  sd_names : conf_PluginNames (pl w') = conf_PluginNames (pl w);
  sd_stopCancel : stopCancel (pl w') = stopCancel (pl w);
  sd_started : started (pl w') = started (pl w);
  sd_done : done (pl w') = done (pl w);
  sd_statUpdaterStop : statUpdaterStop (pl w') = statUpdaterStop (pl w);
  sd_stopped_set : stopped (pl w) <> 0 -> stopped (pl w') = stopped (pl w);
  sd_stopped_01 : stopped (pl w) = 0 ->
                  stopped (pl w') = 0 \/ stopped (pl w') = 1;
  sd_shrink : shrink w w';
  sd_trace : exists l, extends w w' l
}.

Lemma calm_steady w w' : calm w w' -> steady w w'.
Proof.
  intros A. constructor; try apply A.
  split; [rewrite (ca_runs _ _ A); lia | apply A].
Qed.

Lemma steady_refl w : steady w w.
Proof. apply calm_steady, calm_refl. Qed.

Lemma steady_trans w1 w2 w3 : steady w1 w2 -> steady w2 w3 -> steady w1 w3.
Proof.
  intros A B. constructor.
  - rewrite (sd_names _ _ B). apply A.
  - rewrite (sd_stopCancel _ _ B). apply A.
  - rewrite (sd_started _ _ B). apply A.
  - rewrite (sd_done _ _ B). apply A.
  - rewrite (sd_statUpdaterStop _ _ B). apply A.
  - intros H. pose proof (sd_stopped_set _ _ A H) as E.
    rewrite (sd_stopped_set _ _ B); congruence.
  - intros H. destruct (sd_stopped_01 _ _ A H) as [H0 | H1].
    + apply (sd_stopped_01 _ _ B H0).
    + right. rewrite (sd_stopped_set _ _ B); congruence.
  - eapply shrink_trans; [apply A | apply B].
  - destruct (sd_trace _ _ A) as (l1 & E1).
    destruct (sd_trace _ _ B) as (l2 & E2).
    exists (l2 ++ l1)%list. eapply extends_trans; eauto.
Qed.

Definition steadily {A} (m : M A) : Prop :=
  forall w,
    match m w with
    | Ok _ w' | Panic _ w' => steady w w'
    | Blocked _ | OutOfFuel => False
    end.

Lemma calmly_steadily {A} (m : M A) : calmly m -> steadily m.
Proof.
  intros H w. specialize (H w). destruct (m w); auto using calm_steady.
Qed.

Lemma steadily_ret {A} (a : A) : steadily (ret a).
Proof. intros w. apply steady_refl. Qed.

Lemma steadily_bind {A B} (m : M A) (f : A -> M B) :
  steadily m -> (forall a, steadily (f a)) -> steadily (bind m f).
Proof.
  intros Hm Hf w. unfold bind. specialize (Hm w).
  destruct (m w) as [a w1 | why w1 | w1 | ]; auto.
  specialize (Hf a w1).
  destruct (f a w1) as [b w2 | why w2 | w2 | ]; auto;
    eapply steady_trans; eauto.
Qed.

Lemma steady_prepared i ty gen input w : steady w (prepared i ty gen input w).
Proof.
  destruct ty; constructor; cbn; auto; try (split; cbn; lia);
    exists []; reflexivity.
Qed.

Lemma steady_exited i t w : steady w (exited i t w).
Proof.
  unfold exited, ran.
  constructor; cbn; autorewrite with frame; cbn; auto.
  - intros H.
    apply (er_stopped_set _ _ _ (run_steps_frame t (steps (script w))
             (set_runs (tl (runs w)) (log (EvPluginRunEnter i t (pl w)) w)))).
    exact H.
  - intros H.
    apply (er_stopped_01 _ _ _ (run_steps_frame t (steps (script w))
             (set_runs (tl (runs w)) (log (EvPluginRunEnter i t (pl w)) w)))).
    exact H.
  - split; cbn; autorewrite with frame; cbn; [ | lia].
    destruct (runs w); cbn; lia.
  - eexists. unfold extends. cbn. rewrite trace_run_steps. cbn.
    match goal with |- ?a :: (?l ++ ?b :: ?tl)%list = _ =>
      change (a :: l ++ b :: tl)%list with ((a :: l) ++ [b] ++ tl)%list
    end.
    rewrite app_assoc. reflexivity.
Qed.

Lemma steady_reset w : steady w (reset w).
Proof.
  constructor; cbn; auto; try (split; cbn; lia). exists []. reflexivity.
Qed.

Lemma steadily_runPlugin instance ty gen input :
  steadily (runPlugin instance ty gen input).
Proof.
  intros w. destruct instance as [i | ].
  - rewrite runPlugin_eq.
    match goal with |- match runPlugin_rest ?a ?b ?c ?d ?e ?f ?w2 with _ => _ end =>
      assert (Hs : steady w w2);
      [ eapply steady_trans; [apply steady_prepared | ];
        eapply steady_trans; [apply steady_exited | apply steady_reset ]
      | assert (Hr : steadily (runPlugin_rest a b c d e f));
        [ | specialize (Hr w2);
            destruct (runPlugin_rest a b c d e f w2); auto;
            eapply steady_trans; eauto ] ]
    end.
    unfold runPlugin_rest.
    repeat first [ apply calmly_steadily, calmly_publish
                 | apply calmly_steadily, calmly_settle
                 | apply steadily_bind; [ | intros ]
                 | apply calmly_steadily; calm_step ].
  - destruct ty; cbn; constructor; cbn; auto; try (split; cbn; lia);
      exists []; reflexivity.
Qed.

Lemma steadily_Run_body names t i flags : steadily (Run_body names t i flags).
Proof.
  unfold Run_body, Run_invoke, t_SetError, t_start, m_releasePluginInstance.
  repeat first
    [ apply steadily_runPlugin
    | apply calmly_steadily, calmly_Run_dispatch
    | apply steadily_bind; [ | intros ]
    | apply steadily_ret
    | match goal with
      | |- steadily (match ?x with _ => _ end) => destruct x
      end
    | apply calmly_steadily; calm_step
    | apply calmly_steadily; intros w; cbn;
      match goal with
      | |- calm _ (log ?e (with_reg ?f _)) =>
          apply (quiet_calm (fun w => log e (with_reg f w))); quiet
      end ].
Qed.

(** ** runPlugin as a whole *)

Lemma idle_no_preempt p : idle p -> no_preempt p.
Proof.
  intros (H1 & H2 & H3 & H4). unfold no_preempt. now rewrite H1, H2, H3.
Qed.

Lemma idle_no_rerun p : idle p -> no_rerun p.
Proof.
  intros (H1 & H2 & H3 & H4). unfold no_rerun. now rewrite H1, H2, H4.
Qed.

Lemma calm_idle w w' : calm w w' -> idle (pl w) -> idle (pl w').
Proof.
  intros A (H1 & H2 & H3). unfold idle.
  now rewrite (ca_rerunCancel _ _ A), (ca_scheduleCancel _ _ A),
    (ca_stopCancel _ _ A).
Qed.

(** The world the call of [instance.Run] leaves, slots reset. *)
Definition after_run (i : wrappedPlugin) (ty : plugins.PluginType) (gen : Z)
    (input : TaskRef) w : World T R :=
  reset (exited i (pluginTask ty input) (prepared i ty gen input w)).

Lemma after_run_idle i ty gen input w :
  plain (stopCancel (pl w)) -> idle (pl (after_run i ty gen input w)).
Proof.
  intros H. unfold after_run, idle, reset, exited, ran. cbn.
  repeat split; auto; autorewrite with frame; destruct ty; cbn; apply H.
Qed.

Lemma runPlugin_rest_inv i t oc sa err fa w s p r w' :
  idle (pl w) ->
  runPlugin_rest i t oc sa err fa w = Ok (s, p, r) w' ->
  exists w3 w4,
    runPlugin_publish i t sa err fa w = Ok tt w3 /\
    runPlugin_settle i t oc err w3 = Ok tt w4 /\
    w' = log (EvRunPluginReturn s p r) w4 /\
    s = is_nil err /\ p = preempted_cell w /\ r = rerun_cell w /\
    calm w w3 /\ calm w3 w4.
Proof.
  intros Hi H. unfold runPlugin_rest in H.
  apply bind_Ok in H as ([] & w3 & Hp & H).
  apply bind_Ok in H as ([] & w4 & Hs & H).
  pose proof (calmly_publish i t sa err fa w) as C3. rewrite Hp in C3.
  pose proof (calmly_settle i t oc err w3) as C4. rewrite Hs in C4.
  pose proof (calm_idle _ _ C3 Hi) as Hi3.
  exists w3, w4. cbn in H. inversion H; subst.
  split; [exact Hp | ]. split; [exact Hs | ].
  split; [reflexivity | ]. split; [reflexivity | ].
  split; [ | split; [ | split; assumption]].
  - rewrite (ca_preempted _ _ C4) by now apply idle_no_preempt.
    apply (ca_preempted _ _ C3). now apply idle_no_preempt.
  - rewrite (ca_rerun _ _ C4) by now apply idle_no_rerun.
    apply (ca_rerun _ _ C3). now apply idle_no_rerun.
Qed.

Lemma runPlugin_inv instance ty gen input w s p r w' :
  plain (stopCancel (pl w)) ->
  runPlugin instance ty gen input w = Ok (s, p, r) w' ->
  exists i w3 w4,
    instance = Some i /\
    runPlugin_publish i (pluginTask ty input)
      (clock (prepared i ty gen input w))
      (returns (script (prepared i ty gen input w)))
      (clock (exited i (pluginTask ty input) (prepared i ty gen input w)))
      (after_run i ty gen input w) = Ok tt w3 /\
    runPlugin_settle i (pluginTask ty input)
      (ResultCode input (tk (wrapped ty input w)))
      (returns (script (prepared i ty gen input w))) w3 = Ok tt w4 /\
    w' = log (EvRunPluginReturn s p r) w4 /\
    s = is_nil (returns (script (prepared i ty gen input w))) /\
    p = preempted_cell (after_run i ty gen input w) /\
    r = rerun_cell (after_run i ty gen input w) /\
    calm (after_run i ty gen input w) w3 /\ calm w3 w4.
Proof.
  intros Hp H. destruct instance as [i | ].
  2: { destruct (runPlugin_nil ty gen input w) as (w0 & E). congruence. }
  rewrite runPlugin_eq in H.
  apply runPlugin_rest_inv in H; [ | now apply after_run_idle].
  destruct H as (w3 & w4 & H). exists i, w3, w4. split; auto.
Qed.

(** The hot-update closure can only fire while a script plays. *)
Lemma rerun_needs_script i ty gen input w :
  runs w = [] -> rerun_cell (after_run i ty gen input w) = false.
Proof.
  intros E. unfold after_run, reset, exited, ran, script.
  destruct ty; cbn; rewrite E; cbn; unfold run_steps; reflexivity.
Qed.

Lemma after_run_runs i ty gen input w :
  runs (after_run i ty gen input w) = tl (runs w).
Proof.
  unfold after_run, reset, exited, ran. cbn. autorewrite with frame. cbn.
  now destruct ty.
Qed.

Lemma runPlugin_rerun_consumes instance ty gen input w s p w' :
  plain (stopCancel (pl w)) ->
  runPlugin instance ty gen input w = Ok (s, p, true) w' ->
  (List.length (runs w') < List.length (runs w))%nat.
Proof.
  intros Hp H.
  destruct (runPlugin_inv _ _ _ _ _ _ _ _ _ Hp H)
    as (i & w3 & w4 & -> & _ & _ & -> & _ & _ & Hr & C3 & C4).
  cbn. rewrite (ca_runs _ _ C4), (ca_runs _ _ C3), after_run_runs.
  destruct (runs w) as [ | r rest] eqn:E; cbn; [ | lia].
  rewrite rerun_needs_script in Hr by assumption. discriminate.
Qed.

(** ** One iteration of the loop *)

Lemma Run_invoke_inv instance ty gen t w again fl w' :
  Run_invoke instance ty gen t w = Ok (again, fl) w' ->
  exists s p r w2,
    runPlugin instance ty gen t w = Ok (s, p, r) w2 /\
    again = negb s && r /\ fl = (s, p, r) /\
    w' = log (EvReleasePluginInstance instance)
           (with_reg (releasePluginInstance instance) w2).
Proof.
  unfold Run_invoke. intros H.
  apply bind_Ok in H as ([[s p] r] & w2 & Hr & H).
  cbn in H. inversion H; subst. now exists s, p, r, w2.
Qed.

(** The world after lines 128-132: the lookup, and the error it may have
    set on the task. *)
Definition looked_up (names : list string) (t : TaskRef) (i : Z) w
  : World T R :=
  let r := getPluginInstance (nth (Z.to_nat i) names "") true (reg w) in
  let wg := log (EvGetPluginInstance (nth (Z.to_nat i) names "") true)
              (with_reg (fun _ => snd r) w) in
  match snd (fst r) with
  | Some e =>
      log (EvSetError t e http.StatusServiceUnavailable)
        (with_tk (SetError t e http.StatusServiceUnavailable) wg)
  | None => wg
  end.

Definition lookup (names : list string) (i : Z) w
  : option wrappedPlugin * plugins.PluginType * Z * option error :=
  fst (getPluginInstance (nth (Z.to_nat i) names "") true (reg w)).

Definition found_instance (names : list string) (i : Z) w
  : option wrappedPlugin := fst (fst (fst (lookup names i w))).

Definition found_type (names : list string) (i : Z) w : plugins.PluginType :=
  snd (fst (fst (lookup names i w))).

Definition found_gen (names : list string) (i : Z) w : Z :=
  snd (fst (lookup names i w)).

Lemma Run_body_inv names t i flags w ctl fl w' :
  Run_body names t i flags w = Ok (ctl, fl) w' ->
  let instance := found_instance names i w in
  let ty := found_type names i w in
  let gen := found_gen names i w in
  let we := looked_up names t i w in
  exists again w2,
    match Status t (tk we) with
    | task.Pending =>
        Run_invoke instance ty gen t (log EvStart (with_tk start we))
        = Ok (again, fl) w2
    | task.Running => Run_invoke instance ty gen t we = Ok (again, fl) w2
    | _ => again = false /\ fl = flags /\ w2 = we
    end /\
    if again then ctl = Continue (i - 1) /\ w' = w2
    else Run_dispatch instance t w2 = Ok tt w' /\
         ctl = match Status t (tk w') with
               | task.Finished => Break
               | _ => Continue i
               end.
Proof.
  unfold Run_body, found_instance, found_type, found_gen, looked_up, lookup.
  intros H.
  apply bind_Ok in H as ([[[inst ty] gen] err] & wg & Hg & H).
  unfold m_getPluginInstance in Hg. inversion Hg as [[Hr Hw]]. clear Hg.
  rewrite Hr. cbn [fst snd].
  apply bind_Ok in H as ([] & we & He & H).
  assert (Ewe : we = match err with
                     | Some e =>
                         log (EvSetError t e http.StatusServiceUnavailable)
                           (with_tk (SetError t e http.StatusServiceUnavailable) wg)
                     | None => wg
                     end).
  { destruct err; cbn in He; now inversion He. }
  clear He. rewrite Hw. rewrite <- Ewe. clear Ewe Hw Hr.
  apply bind_Ok in H as (st & w0 & Hst & H).
  cbn in Hst. inversion Hst; subst st w0. clear Hst.
  apply bind_Ok in H as ([again fl'] & w2 & Hi & H).
  assert (Hfl : fl' = fl /\
                if again then ctl = Continue (i - 1) /\ w' = w2
                else Run_dispatch inst t w2 = Ok tt w' /\
                     ctl = match Status t (tk w') with
                           | task.Finished => Break
                           | _ => Continue i
                           end).
  { destruct again.
    - cbn in H. now inversion H.
    - apply bind_Ok in H as ([] & w3 & Hd & H).
      apply bind_Ok in H as (st & w4 & Hst & H).
      cbn in Hst. inversion Hst; subst st w4.
      destruct (Status t (tk w3)) eqn:E; cbn in H; inversion H; subst;
        rewrite E; auto. }
  destruct Hfl as (-> & Hfl).
  exists again, w2. split; [ | exact Hfl].
  destruct (Status t (tk we)); cbn in Hi; try exact Hi;
    inversion Hi; subst; auto.
Qed.

Lemma Run_body_progress names t i flags w ctl fl w' :
  plain (stopCancel (pl w)) ->
  Run_body names t i flags w = Ok (ctl, fl) w' ->
  ctl = Break \/ ctl = Continue i \/
  (ctl = Continue (i - 1) /\
   (List.length (runs w') < List.length (runs w))%nat).
Proof.
  intros Hp H. apply Run_body_inv in H. cbv zeta in H.
  destruct H as (again & w2 & Hi & H).
  destruct again.
  - destruct H as (-> & ->). right. right. split; auto.
    assert (Hc : forall w0, plain (stopCancel (pl w0)) -> runs w0 = runs w ->
                 Run_invoke (found_instance names i w) (found_type names i w)
                   (found_gen names i w) t w0 = Ok (true, fl) w2 ->
                 (List.length (runs w2) < List.length (runs w))%nat).
    { intros w0 Hp0 Hr0 H0. apply Run_invoke_inv in H0.
      destruct H0 as (s & p & r & w3 & Hrun & Ha & -> & ->).
      destruct s, r; try discriminate. cbn. rewrite <- Hr0.
      eapply runPlugin_rerun_consumes; eauto. }
    assert (Hpe : plain (stopCancel (pl (looked_up names t i w))) /\
                  runs (looked_up names t i w) = runs w).
    { unfold looked_up.
      destruct (snd (fst (getPluginInstance _ true (reg w)))); cbn; auto. }
    destruct Hpe as (Hpe & Hre).
    destruct (Status t (tk (looked_up names t i w)));
      try (destruct Hi as (Hi & _); discriminate).
    + eapply Hc; [ | | apply Hi]; cbn; auto.
    + eapply Hc; eauto.
  - destruct H as (_ & ->).
    destruct (Status t (tk w')); auto.
Qed.

Lemma Run_loop_total fuel names t i flags w :
  plain (stopCancel (pl w)) ->
  (Z.to_nat (Z.of_nat (List.length names) - i) + List.length (runs w) < fuel)%nat ->
  0 <= i ->
  match Run_loop fuel names t i flags w with
  | Ok _ w' | Panic _ w' => steady w w'
  | Blocked _ | OutOfFuel => False
  end.
Proof.
  revert i flags w. induction fuel as [ | fuel IH]; intros i flags w Hp Hf Hi.
  - lia.
  - cbn [Run_loop].
    destruct (Z.ltb_spec i (Z.of_nat (List.length names))) as [Hlt | Hge];
      [ | apply steady_refl].
    unfold bind at 1. cbn [load_stopped].
    set (w1 := log (EvLoadStopped L126 (stopped (pl (yield w)))) (yield w)).
    assert (S1 : steady w w1).
    { apply calm_steady. pose proof (calmly_load_stopped L126 w) as C.
      exact C. }
    destruct (stopped (pl (yield w)) =? 0); [ | exact S1].
    unfold bind at 1.
    pose proof (steadily_Run_body names t i flags w1) as S2.
    destruct (Run_body names t i flags w1) as [[ctl fl] w2 | why w2 | w2 | ] eqn:Eb;
      try contradiction.
    2: { eapply steady_trans; eauto. }
    assert (Hp1 : plain (stopCancel (pl w1))).
    { now rewrite (sd_stopCancel _ _ S1). }
    assert (Hp2 : plain (stopCancel (pl w2))).
    { now rewrite (sd_stopCancel _ _ S2). }
    pose proof (Run_body_progress _ _ _ _ _ _ _ _ Hp1 Eb) as Hprog.
    assert (Hr1 : runs w1 = runs w).
    { subst w1. cbn. apply yield_runs. }
    pose proof (sd_shrink _ _ S2) as [Hs2 _].
    destruct ctl as [i' | ].
    + specialize (IH (i' + 1) fl w2 Hp2).
      assert (Hm : (Z.to_nat (Z.of_nat (List.length names) - (i' + 1)) +
                    List.length (runs w2) < fuel)%nat /\ 0 <= i' + 1).
      { rewrite Hr1 in *.
        destruct Hprog as [Hb | [Hc | (Hc & Hlen)]]; try discriminate;
          inversion Hc; subst i'; split; lia. }
      destruct Hm as (Hm1 & Hm2). specialize (IH Hm1 Hm2).
      destruct (Run_loop fuel names t (i' + 1) fl w2); auto;
        eapply steady_trans; eauto; eapply steady_trans; eauto.
    + cbn. eapply steady_trans; eauto.
Qed.

(** ** Run *)

(** The world [Run] starts its loop in: after the CAS on [started] succeeded
    at [w], with the fresh task and its stop canceller installed. *)
Definition started_world w : World T R :=
  write (set_stopCancel (Some (Canceller stopTask)))
    (with_tk (withCancel BaseTask task.CanceledByPipelineStopped)
       (with_tk (fun _ => newTask)
          (log (EvCasStarted true) (write (set_started 1) w)))).

Definition Run_main : M (option error) :=
  bind (gets (fun w => conf_PluginNames (pl w))) (fun names =>
  bind Now (fun startAt =>
  bind (gets (loop_fuel names)) (fun fuel =>
  bind (Run_loop fuel names stopTask 0 (false, false, false))
    (fun x => match x with
              | (_, preempted, _) =>
                  bind (Run_finish stopTask startAt preempted)
                    (fun _ => ret None)
              end)))).

Lemma Run_eq w :
  let w1 := log (EvLoadStopped L109 (stopped (pl (yield w)))) (yield w) in
  Run w =
  if stopped (pl (yield w)) =? 1 then Ok None w1
  else if started (pl w) =? 0 then Run_main (started_world (yield w1))
  else Ok (Some "pipeline is already started")
         (log (EvCasStarted false) (yield w1)).
Proof.
  cbv zeta. unfold Run. unfold bind at 1. cbn [load_stopped].
  destruct (stopped (pl (yield w)) =? 1); [reflexivity | ].
  unfold bind at 1. unfold cas_started.
  rewrite yield_started. cbn [pl log started].
  rewrite yield_started.
  destruct (started (pl w) =? 0); cbn [negb]; [ | reflexivity].
  unfold bind at 1. cbn [lift]. unfold bind at 1. cbn [lift].
  unfold bind at 1. cbn [lift].
  unfold started_world, Run_main. reflexivity.
Qed.

Lemma Run_main_total w :
  plain (stopCancel (pl w)) ->
  match Run_main w with
  | Ok r _ => r = None
  | Panic _ _ => True
  | Blocked _ | OutOfFuel => False
  end.
Proof.
  intros Hp. unfold Run_main.
  unfold bind at 1. cbn [gets]. unfold bind at 1. cbn [Now gets].
  unfold bind at 1. cbn [gets]. unfold bind at 1.
  pose proof (Run_loop_total (loop_fuel (conf_PluginNames (pl w)) w)
                (conf_PluginNames (pl w)) stopTask 0 (false, false, false) w Hp)
    as Hl.
  destruct (Run_loop _ _ _ _ _ w) as [[[s p] r] w2 | why w2 | w2 | ];
    try (apply Hl; unfold loop_fuel; lia); auto.
  unfold bind.
  pose proof (tame_Run_finish stopTask (clock w) p w2) as Hf.
  destruct (Run_finish stopTask (clock w) p w2); auto. reflexivity.
Qed.


(** ** The per-plugin statistics record (lines 278-292) *)

(** The record [runPlugin] builds at line 279, from the world in which line
    278 loaded [stopped]. *)
Definition pluginRecord (i : wrappedPlugin) (t : TaskRef) (sa : Z)
    (err : option error) (fa : Z) (y : World T R) : pluginStatisticsData :=
  {| data := {| startAt := sa; finishAt := fa;
                successful := is_nil err && is_nil (Error t (tk y)) |};
     pluginName := wp_name i |}.

(** The events of [runPlugin_publish] from [w], oldest last. *)
Definition publish_events (i : wrappedPlugin) (t : TaskRef) (sa : Z)
    (err : option error) (fa : Z) w : list Event :=
  if rerun_cell w then [] else
  if preempted_cell w then [] else
  let y := yield w in
  ((if stopped (pl y) =? 0 then
      EvOfferPluginStat (pluginRecord i t sa err fa y)
        (snd (offer (pluginStatChan (pl y)) (pluginRecord i t sa err fa y)))
      :: (if is_nil err then [EvReadError L283 (Error t (tk y))] else [])
    else [])
   ++ EvLoadStopped L278 (stopped (pl y)) :: yield_events w)%list.

Lemma publish_trace i t sa err fa w w3 :
  runPlugin_publish i t sa err fa w = Ok tt w3 ->
  trace w3 = (publish_events i t sa err fa w ++ trace w)%list.
Proof.
  unfold runPlugin_publish, publish_events.
  unfold bind at 1. cbn [gets].
  destruct (rerun_cell w); [intros H; now injection H as <- | ].
  unfold bind at 1. cbn [gets].
  destruct (preempted_cell w); [intros H; now injection H as <- | ].
  unfold bind at 1. cbn [load_stopped]. cbv zeta.
  destruct (stopped (pl (yield w)) =? 0).
  - unfold pluginRecord. destruct err as [e | ]; cbn [is_nil andb].
    + unfold bind at 1. cbn [ret]. unfold offer_pluginStat, lift.
      intros H. injection H as <-. cbn.
      destruct (snd (offer _ _)); cbn; now rewrite trace_yield.
    + unfold bind at 1. unfold bind at 1. cbn [t_Error ret].
      unfold offer_pluginStat, lift.
      intros H. injection H as <-. cbn.
      destruct (snd (offer _ _)); cbn; now rewrite trace_yield.
  - intros H. injection H as <-. cbn. now rewrite trace_yield.
Qed.

Definition is_pluginStat_offer (e : Event) : bool :=
  match e with EvOfferPluginStat _ _ => true | _ => false end.

Definition is_pipelineStat_offer (e : Event) : bool :=
  match e with EvOfferPipelineStat _ _ => true | _ => false end.

Lemma filter_env_nil (P : Event -> bool) l :
  (forall e, P e = true -> allowed true e = false) ->
  Forall (fun e => allowed true e = true) l -> filter P l = [].
Proof.
  intros HP F. induction F as [ | e l He F IH]; cbn; auto.
  destruct (P e) eqn:E; auto. rewrite (HP e E) in He. discriminate.
Qed.

Lemma allowed_weaken e : is_env_event e = true -> allowed true e = true.
Proof. unfold allowed. now intros ->. Qed.

Lemma yield_events_allowed w :
  Forall (fun e => allowed true e = true) (yield_events w).
Proof.
  eapply Forall_impl; [ | apply yield_events_env]. apply allowed_weaken.
Qed.

(** ** What a plugin error does to the task and the instance
    (lines 294-312) *)

(** Lines 299-305: the load of [stopped] that guards the warning, and the
    plugin's error attached at 503 unless the task carries one. *)
Definition attached (t : TaskRef) (e : error) w : World T R :=
  let y := yield w in
  let w1 := log (EvReadError L303 (Error t (tk y)))
              (log (EvLoadStopped L299 (stopped (pl y))) y) in
  if is_nil (Error t (tk y))
  then log (EvSetError t e http.StatusServiceUnavailable)
         (with_tk (SetError t e http.StatusServiceUnavailable) w1)
  else w1.

(** Lines 295-306. *)
Definition settle_task (t : TaskRef) (oc : task.TaskResultCode) (e : error) w
  : World T R :=
  if rerun_cell w then log (EvClearError oc) (with_tk (clearError oc) w)
  else if preempted_cell w then w
  else attached t e w.

(** Lines 308-311. *)
Definition settle_instance (i : wrappedPlugin) w : World T R :=
  let y := yield w in
  let l := log (EvLoadStopped L308 (stopped (pl y))) y in
  if (stopped (pl y) =? 0) && negb (preempted_cell y)
  then log (EvDismissPluginInstance i) (with_reg (dismissPluginInstance i) l)
  else l.

Definition settled (i : wrappedPlugin) (t : TaskRef)
    (oc : task.TaskResultCode) (err : option error) w : World T R :=
  match err with
  | None => w
  | Some e => settle_instance i (settle_task t oc e w)
  end.

Lemma runPlugin_settle_eq i t oc err w :
  runPlugin_settle i t oc err w = Ok tt (settled i t oc err w).
Proof.
  unfold runPlugin_settle, settled, settle_instance, settle_task, attached.
  destruct err as [e | ]; [ | reflexivity].
  unfold bind at 1. cbn [gets]. unfold bind at 1.
  destruct (rerun_cell w).
  - cbn [t_clearError lift]. unfold bind at 1. cbn [load_stopped].
    unfold bind at 1. cbn [gets]. cbv zeta. cbn [preempted_cell log].
    now destruct (_ && _).
  - unfold bind at 1. cbn [gets].
    destruct (preempted_cell w).
    + cbn [ret]. unfold bind at 1. cbn [load_stopped].
      unfold bind at 1. cbn [gets]. cbv zeta. cbn [preempted_cell log].
      now destruct (_ && _).
    + unfold bind at 1. cbn [load_stopped]. unfold bind at 1. cbn [t_Error].
      cbv zeta. cbn [tk log].
      destruct (is_nil (Error t (tk (yield w)))); cbn [when t_SetError lift ret];
        unfold bind at 1; cbn [load_stopped]; unfold bind at 1; cbn [gets];
        cbn [preempted_cell log]; now destruct (_ && _).
Qed.

Lemma runPlugin_publish_total i t sa err fa w :
  exists w3, runPlugin_publish i t sa err fa w = Ok tt w3.
Proof.
  pose proof (calmly_publish i t sa err fa w) as C.
  unfold runPlugin_publish in *.
  unfold bind at 1. unfold bind at 1 in C. cbn [gets] in *.
  destruct (rerun_cell w); [now eexists | ].
  unfold bind at 1. cbn [gets].
  destruct (preempted_cell w); [now eexists | ].
  unfold bind at 1. cbn [load_stopped].
  destruct (_ =? 0); [ | now eexists].
  destruct err; cbn [is_nil]; unfold bind; cbn; now eexists.
Qed.

(** ** The events of one call of runPlugin *)

(** Events of lines 294-312. *)
Definition settle_event (e : Event) : bool :=
  match e with
  | EvClearError _ | EvLoadStopped L299 _ | EvLoadStopped L308 _
  | EvReadError L303 _ | EvSetError _ _ _ | EvDismissPluginInstance _ => true
  | _ => is_env_event e
  end.

Lemma filter_none (P Q : Event -> bool) l :
  (forall e, Q e = true -> P e = false) ->
  Forall (fun e => Q e = true) l -> filter P l = [].
Proof.
  intros HP F. induction F as [ | e l He F IH]; cbn; auto.
  now rewrite (HP e He).
Qed.

Lemma not_in_class (Q : Event -> bool) l e :
  Q e = false -> Forall (fun e => Q e = true) l -> ~ In e l.
Proof.
  intros He F Hin. rewrite Forall_forall in F. specialize (F e Hin). congruence.
Qed.

Lemma env_settle e : is_env_event e = true -> settle_event e = true.
Proof. destruct e; cbn; try discriminate; auto; now destruct site. Qed.

Lemma settled_trace i t oc err w :
  exists l, trace (settled i t oc err w) = (l ++ trace w)%list /\
            Forall (fun e => settle_event e = true) l.
Proof.
  assert (Hy : forall w0, Forall (fun e => settle_event e = true) (yield_events w0)).
  { intros w0. eapply Forall_impl; [ | apply yield_events_env]. apply env_settle. }
  unfold settled. destruct err as [e | ]; [ | exists []; split; [reflexivity | constructor]].
  assert (Hi : forall w0, exists l,
             trace (settle_instance i w0) = (l ++ trace w0)%list /\
             Forall (fun e => settle_event e = true) l).
  { intros w0. unfold settle_instance. cbv zeta.
    destruct (_ && _); cbn; rewrite trace_yield.
    - exists (EvDismissPluginInstance i
              :: EvLoadStopped L308 (stopped (pl (yield w0))) :: yield_events w0).
      split; [reflexivity | ]. repeat constructor. apply Hy.
    - exists (EvLoadStopped L308 (stopped (pl (yield w0))) :: yield_events w0).
      split; [reflexivity | ]. repeat constructor. apply Hy. }
  assert (Ht : exists l,
             trace (settle_task t oc e w) = (l ++ trace w)%list /\
             Forall (fun e => settle_event e = true) l).
  { unfold settle_task, attached. cbv zeta.
    destruct (rerun_cell w).
    - exists [EvClearError oc]. split; [reflexivity | repeat constructor].
    - destruct (preempted_cell w).
      + exists []. split; [reflexivity | constructor].
      + destruct (is_nil _); cbn; rewrite trace_yield.
        * eexists (_ :: _ :: _ :: yield_events w).
          split; [reflexivity | ]. repeat constructor. apply Hy.
        * eexists (_ :: _ :: yield_events w).
          split; [reflexivity | ]. repeat constructor. apply Hy. }
  destruct Ht as (l1 & E1 & F1).
  destruct (Hi (settle_task t oc e w)) as (l2 & E2 & F2).
  exists (l2 ++ l1)%list. split.
  - rewrite E2, E1. apply app_assoc.
  - apply Forall_app. now split.
Qed.

Lemma after_run_trace i ty gen input w :
  exists l,
    trace (after_run i ty gen input w) =
    (EvPluginRunExit i (returns (script (prepared i ty gen input w)))
       (pl (ran i (pluginTask ty input) (prepared i ty gen input w)))
     :: l ++ EvPluginRunEnter i (pluginTask ty input)
               (pl (prepared i ty gen input w)) :: trace w)%list /\
    Forall (fun e => allowed true e = true) l.
Proof.
  unfold after_run, reset, exited, ran. cbn. rewrite trace_run_steps. cbn.
  eexists. split; [ | apply run_events_allowed].
  now destruct ty.
Qed.

(** The events of a call of [runPlugin] that returned: the plugin's run
    between its enter and exit marks, then lines 278-292, then lines
    294-312, then the return. *)
Lemma runPlugin_trace instance ty gen input w s p r w' :
  plain (stopCancel (pl w)) ->
  runPlugin instance ty gen input w = Ok (s, p, r) w' ->
  exists i t sa err fa w2 pE pX lrun lset,
    instance = Some i /\ t = pluginTask ty input /\
    err = returns (script (prepared i ty gen input w)) /\
    w2 = after_run i ty gen input w /\
    s = is_nil err /\ p = preempted_cell w2 /\ r = rerun_cell w2 /\
    new_events w w' =
    (EvRunPluginReturn s p r :: lset ++
     publish_events i t sa err fa w2 ++
     EvPluginRunExit i err pX :: lrun ++ [EvPluginRunEnter i t pE])%list /\
    Forall (fun e => settle_event e = true) lset /\
    Forall (fun e => allowed true e = true) lrun.
Proof.
  intros Hp H.
  destruct (runPlugin_inv _ _ _ _ _ _ _ _ _ Hp H)
    as (i & w3 & w4 & -> & Hpub & Hset & -> & Hs & Hpc & Hrc & _ & _).
  rewrite runPlugin_settle_eq in Hset. injection Hset as <-.
  destruct (settled_trace i (pluginTask ty input)
              (ResultCode input (tk (wrapped ty input w)))
              (returns (script (prepared i ty gen input w))) w3)
    as (lset & Eset & Fset).
  destruct (after_run_trace i ty gen input w) as (lrun & Erun & Frun).
  exists i, (pluginTask ty input), (clock (prepared i ty gen input w)),
    (returns (script (prepared i ty gen input w))),
    (clock (exited i (pluginTask ty input) (prepared i ty gen input w))),
    (after_run i ty gen input w), (pl (prepared i ty gen input w)),
    (pl (ran i (pluginTask ty input) (prepared i ty gen input w))),
    lrun, lset.
  repeat (split; [assumption || reflexivity | ]).
  split; [ | now split].
  apply new_events_app. cbn [trace log].
  rewrite Eset, (publish_trace _ _ _ _ _ _ _ Hpub), Erun.
  repeat (cbn [app]; rewrite <- app_assoc). cbn [app]. reflexivity.
Qed.

Lemma publish_events_offers i t sa err fa w :
  filter is_pluginStat_offer (publish_events i t sa err fa w) =
  if rerun_cell w || preempted_cell w then []
  else if stopped (pl (yield w)) =? 0
       then [EvOfferPluginStat (pluginRecord i t sa err fa (yield w))
               (snd (offer (pluginStatChan (pl (yield w)))
                       (pluginRecord i t sa err fa (yield w))))]
       else [].
Proof.
  unfold publish_events.
  destruct (rerun_cell w); [reflexivity | ].
  destruct (preempted_cell w); [reflexivity | ]. cbv zeta. cbn [orb].
  assert (Hy : filter is_pluginStat_offer (yield_events w) = []).
  { eapply filter_none; [ | apply yield_events_env].
    intros e. now destruct e. }
  destruct (_ =? 0); cbn; [ | now rewrite Hy].
  destruct (is_nil err); cbn; now rewrite Hy.
Qed.

Lemma publish_events_load i t sa err fa w v :
  In (EvLoadStopped L278 v) (publish_events i t sa err fa w) <->
  rerun_cell w = false /\ preempted_cell w = false /\
  v = stopped (pl (yield w)).
Proof.
  unfold publish_events.
  destruct (rerun_cell w); [cbn; split; [tauto | intros (? & _); discriminate] | ].
  destruct (preempted_cell w);
    [cbn; split; [tauto | intros (_ & ? & _); discriminate] | ].
  cbv zeta.
  assert (Hy : ~ In (EvLoadStopped L278 v) (yield_events w)).
  { eapply not_in_class; [ | apply yield_events_env]. reflexivity. }
  rewrite in_app_iff. cbn [In].
  split.
  - intros [H | [H | H]].
    + destruct (_ =? 0); [ | contradiction].
      destruct H as [H | H]; [discriminate | ].
      destruct (is_nil err); [ | contradiction].
      destruct H as [H | []]. discriminate.
    + injection H as <-. auto.
    + contradiction.
  - intros (_ & _ & ->). right. now left.
Qed.

Lemma publish_events_read i t sa err fa w v :
  In (EvReadError L283 v) (publish_events i t sa err fa w) <->
  rerun_cell w = false /\ preempted_cell w = false /\
  stopped (pl (yield w)) = 0 /\ err = None /\
  v = Error t (tk (yield w)).
Proof.
  unfold publish_events.
  destruct (rerun_cell w);
    [cbn; split; [tauto | intros (? & _); discriminate] | ].
  destruct (preempted_cell w);
    [cbn; split; [tauto | intros (_ & ? & _); discriminate] | ].
  cbv zeta.
  assert (Hy : ~ In (EvReadError L283 v) (yield_events w)).
  { eapply not_in_class; [ | apply yield_events_env]. reflexivity. }
  rewrite in_app_iff. cbn [In].
  destruct (Z.eqb_spec (stopped (pl (yield w))) 0) as [E | E].
  - destruct err as [e | ]; cbn [is_nil In].
    + split.
      * intros [[H | []] | [H | H]]; try discriminate; contradiction.
      * intros (_ & _ & _ & H & _). discriminate.
    + split.
      * intros [[H | [H | []]] | [H | H]]; try discriminate; try contradiction.
        injection H as <-. auto.
      * intros (_ & _ & _ & _ & ->). left. right. now left.
  - split.
    + intros [[] | [H | H]]; try discriminate; contradiction.
    + intros (_ & _ & H & _). contradiction.
Qed.

Lemma settle_no_offer l :
  Forall (fun e => settle_event e = true) l ->
  filter is_pluginStat_offer l = [] /\
  (forall v, ~ In (EvLoadStopped L278 v) l) /\
  (forall v, ~ In (EvReadError L283 v) l) /\
  (forall d acc, ~ In (EvOfferPluginStat d acc) l).
Proof.
  intros F. split; [ | split; [ | split]].
  - eapply filter_none; [ | apply F]. intros e. destruct e; cbn; auto; discriminate.
  - intros v. eapply not_in_class; [ | apply F]. reflexivity.
  - intros v. eapply not_in_class; [ | apply F]. reflexivity.
  - intros d acc. eapply not_in_class; [ | apply F]. reflexivity.
Qed.

Lemma run_no_offer l :
  Forall (fun e => allowed true e = true) l ->
  filter is_pluginStat_offer l = [] /\
  (forall v, ~ In (EvLoadStopped L278 v) l) /\
  (forall v, ~ In (EvReadError L283 v) l) /\
  (forall d acc, ~ In (EvOfferPluginStat d acc) l).
Proof.
  intros F. split; [ | split; [ | split]].
  - eapply filter_none; [ | apply F]. intros e. destruct e; cbn; auto; discriminate.
  - intros v. eapply not_in_class; [ | apply F]. reflexivity.
  - intros v. eapply not_in_class; [ | apply F]. reflexivity.
  - intros d acc. eapply not_in_class; [ | apply F]. reflexivity.
Qed.

Lemma runPlugin_events_shape (ret exit enter : Event) lset pub lrun :
  is_pluginStat_offer ret = false -> is_pluginStat_offer exit = false ->
  is_pluginStat_offer enter = false ->
  (forall v, ret <> EvLoadStopped L278 v /\ exit <> EvLoadStopped L278 v /\
             enter <> EvLoadStopped L278 v) ->
  (forall v, ret <> EvReadError L283 v /\ exit <> EvReadError L283 v /\
             enter <> EvReadError L283 v) ->
  Forall (fun e => settle_event e = true) lset ->
  Forall (fun e => allowed true e = true) lrun ->
  let new := (ret :: lset ++ pub ++ exit :: lrun ++ [enter])%list in
  filter is_pluginStat_offer new = filter is_pluginStat_offer pub /\
  (forall v, In (EvLoadStopped L278 v) new <-> In (EvLoadStopped L278 v) pub) /\
  (forall v, In (EvReadError L283 v) new <-> In (EvReadError L283 v) pub) /\
  (forall d acc, In (EvOfferPluginStat d acc) new <->
                 In (EvOfferPluginStat d acc) pub).
Proof.
  intros R1 R2 R3 HL HR Fs Fr new.
  destruct (settle_no_offer _ Fs) as (S1 & S2 & S3 & S4).
  destruct (run_no_offer _ Fr) as (U1 & U2 & U3 & U4).
  subst new. split; [ | split; [ | split]].
  - cbn [filter]. rewrite R1. rewrite !filter_app. cbn [filter].
    rewrite R2. rewrite filter_app. cbn [filter]. rewrite R3, S1, U1.
    cbn. apply app_nil_r.
  - intros v. destruct (HL v) as (A & B & C). specialize (S2 v). specialize (U2 v).
    cbn. rewrite !in_app_iff. cbn. rewrite in_app_iff. cbn.
    split; [ | tauto].
    intros [H | [H | [H | [H | [H | [H | []]]]]]]; try tauto; congruence.
  - intros v. destruct (HR v) as (A & B & C). specialize (S3 v). specialize (U3 v).
    cbn. rewrite !in_app_iff. cbn. rewrite in_app_iff. cbn.
    split; [ | tauto].
    intros [H | [H | [H | [H | [H | [H | []]]]]]]; try tauto; congruence.
  - intros d acc. specialize (S4 d acc). specialize (U4 d acc).
    cbn. rewrite !in_app_iff. cbn. rewrite in_app_iff. cbn.
    split; [ | tauto].
    intros [H | [H | [H | [H | [H | [H | []]]]]]]; try tauto;
      subst; discriminate.
Qed.

(** The per-plugin record of one call of [runPlugin]: offered at most once,
    and exactly once when the call ends with [rerun] and [preempted] false
    and line 278 loaded [stopped == 0]; its [successful] is true exactly
    when the plugin returned nil and the read of [t.Error()] at line 283
    gave nil. *)
Lemma runPlugin_offers instance ty gen input w s p r w' :
  plain (stopCancel (pl w)) ->
  runPlugin instance ty gen input w = Ok (s, p, r) w' ->
  (List.length (filter is_pluginStat_offer (new_events w w')) <= 1)%nat /\
  (List.length (filter is_pluginStat_offer (new_events w w')) = 1%nat <->
   r = false /\ p = false /\ In (EvLoadStopped L278 0) (new_events w w')) /\
  (forall d acc, In (EvOfferPluginStat d acc) (new_events w w') ->
     (successful (data d) = true <->
      s = true /\ In (EvReadError L283 None) (new_events w w')) /\
     (s = true -> exists v, In (EvReadError L283 v) (new_events w w')) /\
     exists i, instance = Some i /\ pluginName d = wp_name i).
Proof.
  intros Hp H.
  destruct (runPlugin_trace _ _ _ _ _ _ _ _ _ Hp H)
    as (i & t & sa & err & fa & w2 & pE & pX & lrun & lset & Hi & _ & _ & _
        & Hs & Hpc & Hrc & Enew & Fset & Frun).
  clear H.
  destruct (runPlugin_events_shape
              (EvRunPluginReturn s p r) (EvPluginRunExit i err pX)
              (EvPluginRunEnter i t pE)
              lset (publish_events i t sa err fa w2) lrun)
    as (Ef & El & Er & Eo);
    [ reflexivity | reflexivity | reflexivity
    | intros v; repeat split; discriminate
    | intros v; repeat split; discriminate
    | assumption | assumption | ].
  rewrite Enew. clear Enew. rewrite Ef.
  rewrite publish_events_offers.
  split; [ | split].
  - destruct (_ || _); [cbn; lia | ]. destruct (_ =? 0); cbn; lia.
  - rewrite El, publish_events_load. rewrite <- Hrc, <- Hpc.
    destruct r, p; cbn [orb]; try (cbn; split; [lia | intros (? & ? & _); discriminate]).
    destruct (Z.eqb_spec (stopped (pl (yield w2))) 0) as [E | E]; cbn.
    + split; [intros _; repeat split; congruence | reflexivity].
    + split; [lia | intros (_ & _ & _ & _ & E'); congruence].
  - intros d acc Hin. rewrite Eo in Hin.
    assert (Hd : rerun_cell w2 = false /\ preempted_cell w2 = false /\
                 stopped (pl (yield w2)) = 0 /\
                 d = pluginRecord i t sa err fa (yield w2)).
    { unfold publish_events in Hin.
      destruct (rerun_cell w2); [contradiction | ].
      destruct (preempted_cell w2); [contradiction | ]. cbv zeta in Hin.
      assert (Hy : ~ In (EvOfferPluginStat d acc) (yield_events w2)).
      { eapply not_in_class; [ | apply yield_events_env]. reflexivity. }
      rewrite in_app_iff in Hin. cbn [In] in Hin.
      destruct (Z.eqb_spec (stopped (pl (yield w2))) 0) as [E | E].
      - destruct Hin as [[Hin | Hin] | [Hin | Hin]]; try discriminate;
          try contradiction.
        + injection Hin as <- _. auto.
        + destruct (is_nil err); [ | contradiction].
          destruct Hin as [Hin | []]. discriminate.
      - destruct Hin as [[] | [Hin | Hin]]; try discriminate; contradiction. }
    destruct Hd as (Hr0 & Hp0 & Hv & ->).
    split; [ | split].
    + rewrite Er, publish_events_read. cbn. rewrite <- Hs.
      destruct s.
      * destruct err; [discriminate | ]. cbn.
        destruct (Error t (tk (yield w2))) eqn:Ee; cbn.
        -- split; [discriminate | intros (_ & _ & _ & _ & _ & C); discriminate].
        -- split; auto 10.
      * cbn. split; [discriminate | intros (C & _); discriminate].
    + intros ->. exists (Error t (tk (yield w2))).
      rewrite Er, publish_events_read.
      destruct err; [discriminate | ]. auto 10.
    + exists i. split; [exact Hi | reflexivity].
Qed.

(** ** The pipeline statistics record (lines 173-194) *)

Definition pipelineRecord (t : TaskRef) (sa : Z) (y : World T R)
  : statisticsData :=
  {| startAt := sa; finishAt := clock y;
     successful := is_nil (Error t (tk y)) |}.

(** The events of lines 177-188 from [w], oldest last. *)
Definition report_events (t : TaskRef) (sa : Z) (preempted : bool) w
  : list Event :=
  if preempted then [] else
  let y := yield w in
  ((if stopped (pl y) =? 0 then
      [EvOfferPipelineStat (pipelineRecord t sa y)
         (snd (offer (pipelineAndTaskStatChan (pl y)) (pipelineRecord t sa y)));
       EvReadError L181 (Error t (tk y))]
    else [])
   ++ EvLoadStopped L177 (stopped (pl y)) :: yield_events w)%list.

(** Events of lines 190-194. *)
Definition release_event (e : Event) : bool :=
  match e with
  | EvStoreStarted _ | EvLoadStopped L192 _ | EvCloseDone => true
  | _ => is_env_event e
  end.

Lemma env_release e : is_env_event e = true -> release_event e = true.
Proof. destruct e; cbn; try discriminate; auto. Qed.

Lemma Run_finish_trace t sa p w :
  match Run_finish t sa p w with
  | Ok _ w' | Panic _ w' =>
      exists l1 l2 w1,
        new_events w w' = (l2 ++ report_events t sa p w1 ++ l1)%list /\
        (l1 = [] \/ l1 = [EvFinish t]) /\
        Forall (fun e => release_event e = true) l2
  | Blocked _ | OutOfFuel => False
  end.
Proof.
  assert (Hy : forall w0, Forall (fun e => release_event e = true) (yield_events w0)).
  { intros w0. eapply Forall_impl; [ | apply yield_events_env]. apply env_release. }
  unfold Run_finish. unfold bind at 1. cbn [gets]. unfold bind at 1.
  set (w1 := if negb (Finished t (tk w))
             then log (EvFinish t) (with_tk (finish t) w) else w).
  assert (E1 : when (negb (Finished t (tk w))) (t_finish t) w = Ok tt w1).
  { subst w1. now destruct (negb _). }
  rewrite E1.
  assert (T1 : exists l1, trace w1 = (l1 ++ trace w)%list /\
                          (l1 = [] \/ l1 = [EvFinish t])).
  { subst w1. destruct (negb _); [exists [EvFinish t] | exists []]; auto. }
  destruct T1 as (l1 & T1 & Hl1). clearbody w1. clear E1.
  unfold bind at 1.
  assert (E2 : exists w2,
             (if p then ret tt
              else bind (load_stopped L177) (fun v =>
                   if v =? 0
                   then bind Now (fun finishAt =>
                        bind (t_Error L181 t) (fun terr =>
                        offer_pipelineStat
                          {| startAt := sa; finishAt := finishAt;
                             successful := is_nil terr |}))
                   else ret tt)) w1 = Ok tt w2 /\
             trace w2 = (report_events t sa p w1 ++ trace w1)%list).
  { unfold report_events. destruct p; [now exists w1 | ].
    unfold bind at 1. cbn [load_stopped]. cbv zeta.
    destruct (_ =? 0).
    - unfold bind at 1. cbn [Now gets]. unfold bind at 1. cbn [t_Error].
      unfold offer_pipelineStat, lift. eexists. split; [reflexivity | ].
      unfold pipelineRecord. cbn.
      destruct (snd (offer _ _)); cbn; rewrite ?trace_yield; reflexivity.
    - eexists. split; [reflexivity | ]. cbn. now rewrite trace_yield. }
  destruct E2 as (w2 & E2 & T2). rewrite E2. clear E2.
  unfold bind at 1. cbn [store_started]. unfold bind at 1. cbn [load_stopped].
  set (w3 := log (EvStoreStarted 0) (write (set_started 0) (yield w2))).
  set (w4 := log (EvLoadStopped L192 (stopped (pl (yield w3)))) (yield w3)).
  assert (T4 : trace w4 =
               ((EvLoadStopped L192 (stopped (pl (yield w3))) :: yield_events w3 ++
                 EvStoreStarted 0 :: yield_events w2) ++ trace w2)%list).
  { subst w4 w3. cbn. rewrite trace_yield. cbn. rewrite trace_yield.
    now rewrite <- app_assoc. }
  assert (F4 : Forall (fun e => release_event e = true)
                 (EvLoadStopped L192 (stopped (pl (yield w3))) :: yield_events w3 ++
                  EvStoreStarted 0 :: yield_events w2)).
  { constructor; [reflexivity | ]. apply Forall_app. split; [apply Hy | ].
    constructor; [reflexivity | apply Hy]. }
  clearbody w4. unfold when, close_done.
  destruct (_ =? 1); [destruct (done (pl w4)) | ].
  - eexists l1, _, w1. split; [ | split; [exact Hl1 | exact F4]].
    apply new_events_app. rewrite T4, T2, T1.
    repeat (cbn [app]; rewrite <- app_assoc). reflexivity.
  - eexists l1, (EvCloseDone :: _), w1.
    split; [ | split; [exact Hl1 | constructor; [reflexivity | exact F4]]].
    apply new_events_app. cbn [trace log write]. rewrite T4, T2, T1.
    repeat (cbn [app]; rewrite <- app_assoc). reflexivity.
  - eexists l1, _, w1. split; [ | split; [exact Hl1 | exact F4]].
    apply new_events_app. rewrite T4, T2, T1.
    repeat (cbn [app]; rewrite <- app_assoc). reflexivity.
Qed.

Lemma report_events_shape t sa p w1 l1 l2 :
  l1 = [] \/ l1 = [EvFinish t] ->
  Forall (fun e => release_event e = true) l2 ->
  let new := (l2 ++ report_events t sa p w1 ++ l1)%list in
  filter is_pipelineStat_offer new =
  filter is_pipelineStat_offer (report_events t sa p w1) /\
  (forall v, In (EvLoadStopped L177 v) new <->
             In (EvLoadStopped L177 v) (report_events t sa p w1)) /\
  (forall v, In (EvReadError L181 v) new <->
             In (EvReadError L181 v) (report_events t sa p w1)) /\
  (forall d acc, In (EvOfferPipelineStat d acc) new <->
                 In (EvOfferPipelineStat d acc) (report_events t sa p w1)).
Proof.
  intros Hl1 F2 new. subst new.
  assert (N1 : filter is_pipelineStat_offer l1 = [] /\
               (forall e, In e l1 -> e = EvFinish t)).
  { destruct Hl1 as [-> | ->]; cbn; split; auto.
    - intros e [].
    - intros e [<- | []]. reflexivity. }
  destruct N1 as (N1 & N1').
  assert (N2 : filter is_pipelineStat_offer l2 = []).
  { eapply filter_none; [ | apply F2]. intros e. destruct e; cbn; auto; discriminate. }
  split; [ | split; [ | split]].
  - now rewrite !filter_app, N1, N2, app_nil_r.
  - intros v. rewrite !in_app_iff. split; [ | tauto].
    intros [H | [H | H]]; auto.
    + exfalso. revert H. eapply not_in_class; [ | apply F2]. reflexivity.
    + apply N1' in H. discriminate.
  - intros v. rewrite !in_app_iff. split; [ | tauto].
    intros [H | [H | H]]; auto.
    + exfalso. revert H. eapply not_in_class; [ | apply F2]. reflexivity.
    + apply N1' in H. discriminate.
  - intros d acc. rewrite !in_app_iff. split; [ | tauto].
    intros [H | [H | H]]; auto.
    + exfalso. revert H. eapply not_in_class; [ | apply F2]. reflexivity.
    + apply N1' in H. discriminate.
Qed.

Lemma report_events_offers t sa p w :
  filter is_pipelineStat_offer (report_events t sa p w) =
  if p then []
  else if stopped (pl (yield w)) =? 0
       then [EvOfferPipelineStat (pipelineRecord t sa (yield w))
               (snd (offer (pipelineAndTaskStatChan (pl (yield w)))
                       (pipelineRecord t sa (yield w))))]
       else [].
Proof.
  unfold report_events. destruct p; [reflexivity | ]. cbv zeta.
  assert (Hy : filter is_pipelineStat_offer (yield_events w) = []).
  { eapply filter_none; [ | apply yield_events_env]. intros e. now destruct e. }
  destruct (_ =? 0); cbn; now rewrite Hy.
Qed.

Lemma report_events_load t sa p w v :
  In (EvLoadStopped L177 v) (report_events t sa p w) <->
  p = false /\ v = stopped (pl (yield w)).
Proof.
  unfold report_events.
  destruct p; [cbn; split; [tauto | intros (? & _); discriminate] | ].
  cbv zeta.
  assert (Hy : ~ In (EvLoadStopped L177 v) (yield_events w)).
  { eapply not_in_class; [ | apply yield_events_env]. reflexivity. }
  rewrite in_app_iff. cbn [In]. split.
  - intros [H | [H | H]].
    + destruct (_ =? 0); [ | contradiction].
      destruct H as [H | [H | []]]; discriminate.
    + injection H as <-. auto.
    + contradiction.
  - intros (_ & ->). right. now left.
Qed.

Lemma report_events_offer_in t sa p w d acc :
  In (EvOfferPipelineStat d acc) (report_events t sa p w) ->
  In (EvReadError L181 (Error t (tk (yield w)))) (report_events t sa p w) /\
  successful d = is_nil (Error t (tk (yield w))).
Proof.
  unfold report_events. destruct p; [intros [] | ]. cbv zeta.
  assert (Hy : ~ In (EvOfferPipelineStat d acc) (yield_events w)).
  { eapply not_in_class; [ | apply yield_events_env]. reflexivity. }
  rewrite !in_app_iff. cbn [In].
  destruct (_ =? 0).
  - intros [[H | [H | []]] | [H | H]]; try discriminate; try contradiction.
    injection H as <- _. split; [ | reflexivity]. left. right. now left.
  - intros [[] | [H | H]]; try discriminate; contradiction.
Qed.

(** The pipeline record of [Run_finish]: offered at most once, and exactly
    once when [preempted] is false and line 177 loaded [stopped == 0];
    its [successful] says that the read of [t.Error()] at line 181 gave
    nil. *)
Lemma Run_finish_offers t sa p w :
  match Run_finish t sa p w with
  | Ok _ w' | Panic _ w' =>
      (List.length (filter is_pipelineStat_offer (new_events w w')) <= 1)%nat /\
      (List.length (filter is_pipelineStat_offer (new_events w w')) = 1%nat <->
       p = false /\ In (EvLoadStopped L177 0) (new_events w w')) /\
      (forall d acc, In (EvOfferPipelineStat d acc) (new_events w w') ->
         exists v, In (EvReadError L181 v) (new_events w w') /\
                   successful d = is_nil v)
  | Blocked _ | OutOfFuel => False
  end.
Proof.
  pose proof (Run_finish_trace t sa p w) as H.
  assert (G : forall w',
             (exists l1 l2 w1,
                new_events w w' = (l2 ++ report_events t sa p w1 ++ l1)%list /\
                (l1 = [] \/ l1 = [EvFinish t]) /\
                Forall (fun e => release_event e = true) l2) ->
             (List.length (filter is_pipelineStat_offer (new_events w w')) <= 1)%nat /\
             (List.length (filter is_pipelineStat_offer (new_events w w')) = 1%nat <->
              p = false /\ In (EvLoadStopped L177 0) (new_events w w')) /\
             (forall d acc, In (EvOfferPipelineStat d acc) (new_events w w') ->
                exists v, In (EvReadError L181 v) (new_events w w') /\
                          successful d = is_nil v)).
  { intros w' (l1 & l2 & w1 & -> & Hl1 & F2).
    destruct (report_events_shape t sa p w1 l1 l2 Hl1 F2) as (Ef & El & Er & Eo).
    rewrite Ef, report_events_offers. split; [ | split].
    - destruct p; [cbn; lia | ]. destruct (_ =? 0); cbn; lia.
    - rewrite El, report_events_load.
      destruct p; [cbn; split; [lia | intros (? & _); discriminate] | ].
      destruct (Z.eqb_spec (stopped (pl (yield w1))) 0) as [E | E]; cbn.
      + split; [intros _; repeat split; congruence | reflexivity].
      + split; [lia | intros (_ & _ & E'); congruence].
    - intros d acc Hin. rewrite Eo in Hin.
      apply report_events_offer_in in Hin. destruct Hin as (Hin & Hs).
      exists (Error t (tk (yield w1))). split; [ | exact Hs].
      now apply Er. }
  destruct (Run_finish t sa p w) as [[] w' | why w' | | ]; auto.
Qed.

Lemma offer_pluginStat_eq d w :
  offer_pluginStat d w =
  Ok tt (log (EvOfferPluginStat d (List.length (pluginStatChan (pl w)) <? chanCap)%nat)
           (if (List.length (pluginStatChan (pl w)) <? chanCap)%nat
            then write (set_pluginStatChan (pluginStatChan (pl w) ++ [d])) w
            else w)).
Proof.
  unfold offer_pluginStat, lift, offer.
  now destruct (List.length (pluginStatChan (pl w)) <? chanCap)%nat.
Qed.

Lemma offer_pipelineStat_eq d w :
  offer_pipelineStat d w =
  Ok tt (log (EvOfferPipelineStat d
                (List.length (pipelineAndTaskStatChan (pl w)) <? chanCap)%nat)
           (if (List.length (pipelineAndTaskStatChan (pl w)) <? chanCap)%nat
            then write (set_pipelineAndTaskStatChan
                          (pipelineAndTaskStatChan (pl w) ++ [d])) w
            else w)).
Proof.
  unfold offer_pipelineStat, lift, offer.
  now destruct (List.length (pipelineAndTaskStatChan (pl w)) <? chanCap)%nat.
Qed.


(** ** A plugin error without rerun or preemption (lines 298-311) *)

(** The events of lines 299-305 from [w], oldest last. *)
Definition attach_events (t : TaskRef) (e : error) w : list Event :=
  let y := yield w in
  ((if is_nil (Error t (tk y))
    then [EvSetError t e http.StatusServiceUnavailable] else [])
   ++ EvReadError L303 (Error t (tk y))
   :: EvLoadStopped L299 (stopped (pl y)) :: yield_events w)%list.

Lemma attached_trace t e w :
  trace (attached t e w) = (attach_events t e w ++ trace w)%list.
Proof.
  unfold attached, attach_events. cbv zeta.
  destruct (is_nil _); cbn; now rewrite trace_yield.
Qed.

(** The events of lines 308-311 from [w], oldest last. *)
Definition dismiss_events (i : wrappedPlugin) w : list Event :=
  let y := yield w in
  ((if (stopped (pl y) =? 0) && negb (preempted_cell y)
    then [EvDismissPluginInstance i] else [])
   ++ EvLoadStopped L308 (stopped (pl y)) :: yield_events w)%list.

Lemma settle_instance_trace i w :
  trace (settle_instance i w) = (dismiss_events i w ++ trace w)%list.
Proof.
  unfold settle_instance, dismiss_events. cbv zeta.
  destruct (_ && _); cbn; now rewrite trace_yield.
Qed.

Lemma settle_instance_reg i w :
  reg (settle_instance i w) =
  if (stopped (pl (yield w)) =? 0) && negb (preempted_cell (yield w))
  then dismissPluginInstance i (reg w) else reg w.
Proof.
  unfold settle_instance. cbv zeta.
  destruct (_ && _); cbn; now rewrite yield_reg.
Qed.

Lemma no_preempt_yield w : no_preempt (pl w) -> no_preempt (pl (yield w)).
Proof.
  unfold no_preempt.
  now rewrite yield_rerunCancel, yield_stopCancel, yield_scheduleCancel.
Qed.

Lemma attached_quiet t e w :
  pl (attached t e w) = pl (yield w) /\
  preempted_cell (attached t e w) = preempted_cell (yield w) /\
  reg (attached t e w) = reg w /\
  tk (attached t e w) =
  if is_nil (Error t (tk (yield w)))
  then SetError t e http.StatusServiceUnavailable (tk (yield w))
  else tk (yield w).
Proof.
  unfold attached. cbv zeta.
  destruct (is_nil _); cbn; rewrite yield_reg; auto.
Qed.

Lemma yield_no_driver_event w e :
  is_env_event e = false -> ~ In e (yield_events w).
Proof.
  intros He. eapply not_in_class; [exact He | apply yield_events_env].
Qed.

(** What lines 299-311 log, when [preempted] stays false. *)
Lemma error_events i t e w :
  preempted_cell w = false -> no_preempt (pl w) ->
  let a := attached t e w in
  let new := (dismiss_events i a ++ attach_events t e w)%list in
  preempted_cell (yield a) = false /\
  (In (EvSetError t e http.StatusServiceUnavailable) new <->
   In (EvReadError L303 None) new) /\
  (forall t' e' c', In (EvSetError t' e' c') new ->
     t' = t /\ e' = e /\ c' = http.StatusServiceUnavailable) /\
  (forall v, In (EvReadError L303 v) new <-> v = Error t (tk (yield w))) /\
  (In (EvDismissPluginInstance i) new <-> In (EvLoadStopped L308 0) new) /\
  (forall v, In (EvLoadStopped L308 v) new <-> v = stopped (pl (yield a))).
Proof.
  intros Hp Hn a new.
  destruct (attached_quiet t e w) as (Epl & Epc & _ & _).
  assert (Hpa : preempted_cell a = false).
  { subst a. rewrite Epc, yield_preempted; auto. }
  assert (Hna : no_preempt (pl a)).
  { subst a. rewrite Epl. now apply no_preempt_yield. }
  assert (Hpy : preempted_cell (yield a) = false).
  { rewrite yield_preempted; auto. }
  split; [exact Hpy | ].
  subst new. unfold dismiss_events, attach_events. cbv zeta.
  rewrite Hpy. cbn [negb]. rewrite andb_true_r.
  pose proof (yield_no_driver_event w) as Yw.
  pose proof (yield_no_driver_event a) as Ya.
  split; [ | split; [ | split; [ | split]]].
  - rewrite !in_app_iff. cbn [In].
    destruct (Error t (tk (yield w))) as [e0 | ] eqn:Ee; cbn [is_nil In].
    + split.
      * intros [[H | [H | H]] | [[] | [H | [H | H]]]]; try discriminate.
        -- destruct (_ =? 0); [destruct H as [H | []] | destruct H]; discriminate.
        -- now apply Ya in H.
        -- now apply Yw in H.
      * intros [[H | [H | H]] | [[] | [H | [H | H]]]]; try discriminate.
        -- destruct (_ =? 0); [destruct H as [H | []] | destruct H]; discriminate.
        -- now apply Ya in H.
        -- now apply Yw in H.
    + split; intros _.
      * right. right. now left.
      * right. left. now left.
  - intros t' e' c'. rewrite !in_app_iff. cbn [In].
    intros [[H | [H | H]] | [H | [H | [H | H]]]]; try discriminate.
    + destruct (_ =? 0); [destruct H as [H | []] | destruct H]; discriminate.
    + now apply Ya in H.
    + destruct (is_nil _); [destruct H as [H | []] | destruct H].
      injection H as <- <- <-. auto.
    + now apply Yw in H.
  - intros v. rewrite !in_app_iff. cbn [In].
    split.
    + intros [[H | [H | H]] | [H | [H | [H | H]]]]; try discriminate.
      * destruct (_ =? 0); [destruct H as [H | []] | destruct H]; discriminate.
      * now apply Ya in H.
      * destruct (is_nil _); [destruct H as [H | []] | destruct H]. discriminate.
      * now injection H as <-.
      * now apply Yw in H.
    + intros ->. right. right. now left.
  - rewrite !in_app_iff. cbn [In].
    destruct (Z.eqb_spec (stopped (pl (yield a))) 0) as [E | E].
    + split; intros _.
      * left. right. left. now rewrite E.
      * left. left. now left.
    + split.
      * intros [[[] | [H | H]] | [H | [H | [H | H]]]]; try discriminate.
        -- now apply Ya in H.
        -- destruct (is_nil _); [destruct H as [H | []] | destruct H]. discriminate.
        -- now apply Yw in H.
      * intros [[[] | [H | H]] | [H | [H | [H | H]]]]; try discriminate.
        -- injection H as H. contradiction.
        -- now apply Ya in H.
        -- destruct (is_nil _); [destruct H as [H | []] | destruct H]. discriminate.
        -- now apply Yw in H.
  - intros v. rewrite !in_app_iff. cbn [In].
    split.
    + intros [[H | [H | H]] | [H | [H | [H | H]]]]; try discriminate.
      * destruct (_ =? 0); [destruct H as [H | []] | destruct H]; discriminate.
      * now injection H as <-.
      * now apply Ya in H.
      * destruct (is_nil _); [destruct H as [H | []] | destruct H]. discriminate.
      * now apply Yw in H.
    + intros ->. left. right. now left.
Qed.

(** C4.  A call of [runPlugin] in which the plugin returned an error [e]
    and neither [rerun] nor [preempted] was set reads [t.Error()] at line
    303 and calls [t.SetError(e, 503)] exactly when that read gave nil; it
    calls no other [SetError].  It then loads [stopped] at line 308 and asks
    the registry to dismiss the instance exactly when that load gave 0. *)
Theorem plugin_error_sets_503_and_dismisses_unless_stopped
    instance ty gen input w w' :
  plain (stopCancel (pl w)) ->
  runPlugin instance ty gen input w = Ok (false, false, false) w' ->
  exists i e w3,
    instance = Some i /\
    returns (script (prepared i ty gen input w)) = Some e /\
    runPlugin_publish i (pluginTask ty input)
      (clock (prepared i ty gen input w)) (Some e)
      (clock (exited i (pluginTask ty input) (prepared i ty gen input w)))
      (after_run i ty gen input w) = Ok tt w3 /\
    let t := pluginTask ty input in
    let a := attached t e w3 in
    w' = log (EvRunPluginReturn false false false) (settle_instance i a) /\
    tk a = (if is_nil (Error t (tk (yield w3)))
            then SetError t e http.StatusServiceUnavailable (tk (yield w3))
            else tk (yield w3)) /\
    (In (EvSetError t e http.StatusServiceUnavailable) (new_events w3 w') <->
     In (EvReadError L303 None) (new_events w3 w')) /\
    (forall t' e' c', In (EvSetError t' e' c') (new_events w3 w') ->
       t' = t /\ e' = e /\ c' = http.StatusServiceUnavailable) /\
    (forall v, In (EvReadError L303 v) (new_events w3 w') <->
       v = Error t (tk (yield w3))) /\
    (In (EvDismissPluginInstance i) (new_events w3 w') <->
     In (EvLoadStopped L308 0) (new_events w3 w')) /\
    (forall v, In (EvLoadStopped L308 v) (new_events w3 w') <->
       v = stopped (pl (yield a))) /\
    reg w' = (if stopped (pl (yield a)) =? 0
              then dismissPluginInstance i (reg w3) else reg w3).
Proof.
  intros Hp H.
  destruct (runPlugin_inv _ _ _ _ _ _ _ _ _ Hp H)
    as (i & w3 & w4 & -> & Hpub & Hset & -> & Hs & Hpc & Hrc & C3 & C4).
  clear H.
  pose proof (after_run_idle i ty gen input w Hp) as Hidle.
  remember (after_run i ty gen input w) as w2 eqn:Ew2.
  destruct (returns (script (prepared i ty gen input w))) as [e | ] eqn:Er;
    [ | discriminate Hs].
  rewrite runPlugin_settle_eq in Hset. injection Hset as <-.
  assert (Hp3 : preempted_cell w3 = false).
  { rewrite (ca_preempted _ _ C3); auto using idle_no_preempt. }
  assert (Hr3 : rerun_cell w3 = false).
  { rewrite (ca_rerun _ _ C3); auto using idle_no_rerun. }
  assert (Hn3 : no_preempt (pl w3)).
  { apply idle_no_preempt. eapply calm_idle; eauto. }
  exists i, e, w3. split; [reflexivity | ]. split; [exact Er | ].
  split; [rewrite <- Ew2; exact Hpub | ]. clear Ew2. cbv zeta.
  assert (Es : settle_task (pluginTask ty input)
                 (ResultCode input (tk (wrapped ty input w))) e w3 =
               attached (pluginTask ty input) e w3).
  { unfold settle_task. now rewrite Hr3, Hp3. }
  try unfold settled. rewrite Es. clear Es C4.
  destruct (attached_quiet (pluginTask ty input) e w3) as (_ & _ & Ereg & Etk).
  destruct (error_events i (pluginTask ty input) e w3 Hp3 Hn3)
    as (Hpy & E1 & E2 & E3 & E4 & E5).
  assert (En : new_events w3
                 (log (EvRunPluginReturn false false false)
                    (settle_instance i (attached (pluginTask ty input) e w3))) =
               (EvRunPluginReturn false false false ::
                dismiss_events i (attached (pluginTask ty input) e w3) ++
                attach_events (pluginTask ty input) e w3)%list).
  { apply new_events_app. cbn [trace log].
    rewrite settle_instance_trace, attached_trace.
    cbn [app]. now rewrite <- app_assoc. }
  rewrite En. clear En.
  split; [reflexivity | ]. split; [exact Etk | ].
  split; [ | split; [ | split; [ | split; [ | split]]]].
  - cbn [In]. rewrite <- E1.
    split; intros [C | C]; try discriminate; now right.
  - intros t' e' c' [C | C]; [discriminate | ]. now apply E2.
  - intros v. rewrite <- E3. cbn [In].
    split; [intros [C | C]; [discriminate | exact C] | now right].
  - cbn [In].
    split; intros [C | C]; try discriminate; right; now apply E4.
  - intros v. rewrite <- E5. cbn [In].
    split; [intros [C | C]; [discriminate | exact C] | now right].
  - cbn [reg log]. rewrite settle_instance_reg, Hpy, Ereg. cbn [negb].
    now rewrite andb_true_r.
Qed.

(** ** A plugin cancelled by a hot update (lines 294-297 and 143-146) *)

(** Line 297: [tsk.clearError(originalCode)]. *)
Definition cleared (oc : task.TaskResultCode) w : World T R :=
  log (EvClearError oc) (with_tk (clearError oc) w).

Lemma settle_instance_quiet i w :
  pl (settle_instance i w) = pl (yield w) /\
  tk (settle_instance i w) = tk (yield w) /\
  preempted_cell (settle_instance i w) = preempted_cell (yield w) /\
  rerun_cell (settle_instance i w) = rerun_cell (yield w).
Proof.
  unfold settle_instance. cbv zeta. destruct (_ && _); cbn; auto.
Qed.

Lemma publish_skipped_on_rerun i t sa err fa w :
  rerun_cell w = true -> runPlugin_publish i t sa err fa w = Ok tt w.
Proof.
  intros H. unfold runPlugin_publish. unfold bind at 1. cbn [gets].
  now rewrite H.
Qed.

(** The events of lines 294-312 when [rerun] is set: one [clearError],
    then the load of line 308 and the dismissal it may allow. *)
Lemma rerun_events i oc w x :
  let new := (dismiss_events i (cleared oc w) ++ [EvClearError oc])%list in
  In (EvClearError oc) (x :: new) /\
  (forall c, In (EvClearError c) new -> c = oc) /\
  (forall t e c, ~ In (EvSetError t e c) new) /\
  (forall d acc, ~ In (EvOfferPluginStat d acc) new).
Proof.
  cbv zeta. unfold dismiss_events. cbv zeta.
  pose proof (yield_no_driver_event (cleared oc w)) as Y.
  split; [ | split; [ | split]].
  - right. apply in_or_app. right. now left.
  - intros c. rewrite !in_app_iff. cbn [In].
    intros [[H | [H | H]] | [H | []]]; try discriminate.
    + destruct (_ && _); [destruct H as [H | []] | destruct H]. discriminate.
    + now apply Y in H.
    + now injection H as <-.
  - intros t e c. rewrite !in_app_iff. cbn [In].
    intros [[H | [H | H]] | [H | []]]; try discriminate.
    + destruct (_ && _); [destruct H as [H | []] | destruct H]. discriminate.
    + now apply Y in H.
  - intros d acc. rewrite !in_app_iff. cbn [In].
    intros [[H | [H | H]] | [H | []]]; try discriminate.
    + destruct (_ && _); [destruct H as [H | []] | destruct H]. discriminate.
    + now apply Y in H.
Qed.

(** Lines 294-314 when [rerun] is set and the plugin returned [e]. *)
Lemma rerun_settled i t oc e w2 p w' :
  idle (pl w2) -> rerun_cell w2 = true -> p = preempted_cell w2 ->
  w' = log (EvRunPluginReturn false p true) (settled i t oc (Some e) w2) ->
  w' = log (EvRunPluginReturn false p true)
         (settle_instance i (cleared oc w2)) /\
  In (EvClearError oc) (new_events w2 w') /\
  (forall c, In (EvClearError c) (new_events w2 w') -> c = oc) /\
  (forall t' e' c, ~ In (EvSetError t' e' c) (new_events w2 w')) /\
  (forall d acc, ~ In (EvOfferPluginStat d acc) (new_events w2 w')) /\
  reg w' = (if (stopped (pl w') =? 0) && negb p
            then dismissPluginInstance i (reg w2) else reg w2) /\
  (stopped (pl w') = 0 -> tk w' = clearError oc (tk w2)).
Proof.
  intros Hidle Hrc Hpc ->.
  assert (Es : settled i t oc (Some e) w2 = settle_instance i (cleared oc w2)).
  { unfold settled, settle_task. now rewrite Hrc. }
  rewrite Es. clear Es.
  assert (En : new_events w2
                 (log (EvRunPluginReturn false p true)
                    (settle_instance i (cleared oc w2))) =
               (EvRunPluginReturn false p true ::
                dismiss_events i (cleared oc w2) ++ [EvClearError oc])%list).
  { apply new_events_app. cbn [trace log].
    rewrite settle_instance_trace. unfold cleared at 2. cbn [trace log with_tk].
    cbn [app]. now rewrite <- app_assoc. }
  rewrite En. clear En.
  destruct (rerun_events i oc w2 (EvRunPluginReturn false p true))
    as (E1 & E2 & E3 & E4).
  destruct (settle_instance_quiet i (cleared oc w2)) as (Qpl & Qtk & _ & _).
  assert (Hic : idle (pl (cleared oc w2))) by exact Hidle.
  split; [reflexivity | ]. split; [exact E1 | ].
  split; [ | split; [ | split; [ | split]]].
  - intros c [C | C]; [discriminate | now apply E2].
  - intros t0 e0 c [C | C]; [discriminate | now apply (E3 t0 e0 c)].
  - intros d acc [C | C]; [discriminate | now apply (E4 d acc)].
  - cbn [reg pl log]. rewrite settle_instance_reg, Qpl.
    rewrite yield_preempted by now apply idle_no_preempt.
    unfold cleared at 2 3. cbn [preempted_cell reg log with_tk].
    now rewrite <- Hpc.
  - cbn [pl tk log]. rewrite Qpl, Qtk. intros H0.
    rewrite (er_tk _ _ _ (yield_env (cleared oc w2)) eq_refl H0);
      [reflexivity | apply Hic].
Qed.

(** A call of [runPlugin] that returns [success = false, rerun = true]. *)
Lemma runPlugin_rerun instance ty gen input w p w' :
  plain (stopCancel (pl w)) ->
  runPlugin instance ty gen input w = Ok (false, p, true) w' ->
  exists i e oc w2,
    instance = Some i /\
    returns (script (prepared i ty gen input w)) = Some e /\
    oc = ResultCode input (tk (wrapped ty input w)) /\
    w2 = after_run i ty gen input w /\
    p = preempted_cell w2 /\
    w' = log (EvRunPluginReturn false p true)
           (settle_instance i (cleared oc w2)) /\
    In (EvClearError oc) (new_events w2 w') /\
    (forall c, In (EvClearError c) (new_events w2 w') -> c = oc) /\
    (forall t e c, ~ In (EvSetError t e c) (new_events w2 w')) /\
    (forall d acc, ~ In (EvOfferPluginStat d acc) (new_events w2 w')) /\
    reg w' = (if (stopped (pl w') =? 0) && negb p
              then dismissPluginInstance i (reg w2) else reg w2) /\
    (stopped (pl w') = 0 -> tk w' = clearError oc (tk w2)).
Proof.
  intros Hp H.
  destruct (runPlugin_inv _ _ _ _ _ _ _ _ _ Hp H)
    as (i & w3 & w4 & -> & Hpub & Hset & -> & Hs & Hpc & Hrc & _ & _).
  clear H.
  assert (E : w3 = after_run i ty gen input w).
  { rewrite publish_skipped_on_rerun in Hpub by now symmetry.
    congruence. }
  subst w3. clear Hpub.
  rewrite runPlugin_settle_eq in Hset. injection Hset as <-.
  destruct (returns (script (prepared i ty gen input w))) as [e | ] eqn:Er;
    [ | discriminate Hs].
  exists i, e, (ResultCode input (tk (wrapped ty input w))),
    (after_run i ty gen input w).
  split; [reflexivity | ]. split; [exact Er | ].
  split; [reflexivity | ]. split; [reflexivity | ]. split; [exact Hpc | ].
  apply (rerun_settled i (pluginTask ty input) _ e);
    [ now apply after_run_idle | now symmetry | exact Hpc | reflexivity ].
Qed.

(** The world in which line 139 calls [runPlugin] in the iteration for
    index [i] started from [w], when the task is Pending or Running after
    the lookup. *)
Definition invoked_from (names : list string) (t : TaskRef) (i : Z) w w0
  : Prop :=
  (Status t (tk (looked_up names t i w)) = task.Pending /\
   w0 = log EvStart (with_tk start (looked_up names t i w))) \/
  (Status t (tk (looked_up names t i w)) = task.Running /\
   w0 = looked_up names t i w).

Lemma Run_invoke_again instance ty gen t w again s p r w' :
  Run_invoke instance ty gen t w = Ok (again, (s, p, r)) w' ->
  (again = true <-> s = false /\ r = true) /\
  exists wr, runPlugin instance ty gen t w = Ok (s, p, r) wr /\
             w' = log (EvReleasePluginInstance instance)
                    (with_reg (releasePluginInstance instance) wr).
Proof.
  intros H. apply Run_invoke_inv in H.
  destruct H as (s' & p' & r' & wr & Hr & -> & Hfl & ->).
  injection Hfl as -> -> ->. split.
  - destruct s', r'; cbn; split; try discriminate; auto;
      intros (? & ?); discriminate.
  - now exists wr.
Qed.

Lemma Run_body_rerun names t i flags w ctl fl w' :
  Run_body names t i flags w = Ok (ctl, fl) w' ->
  (ctl = Continue (i - 1) <->
   exists w0 wr p,
     invoked_from names t i w w0 /\
     runPlugin (found_instance names i w) (found_type names i w)
       (found_gen names i w) t w0 = Ok (false, p, true) wr) /\
  (ctl = Continue (i - 1) ->
   exists w0 wr p,
     invoked_from names t i w w0 /\
     runPlugin (found_instance names i w) (found_type names i w)
       (found_gen names i w) t w0 = Ok (false, p, true) wr /\
     fl = (false, p, true) /\
     w' = log (EvReleasePluginInstance (found_instance names i w))
            (with_reg (releasePluginInstance (found_instance names i w)) wr)).
Proof.
  intros H. apply Run_body_inv in H. cbv zeta in H.
  destruct H as (again & w2 & Hi & H).
  assert (Hinv : again = true ->
            exists w0 wr p,
              invoked_from names t i w w0 /\
              runPlugin (found_instance names i w) (found_type names i w)
                (found_gen names i w) t w0 = Ok (false, p, true) wr /\
              fl = (false, p, true) /\
              w2 = log (EvReleasePluginInstance (found_instance names i w))
                     (with_reg (releasePluginInstance (found_instance names i w))
                        wr)).
  { intros ->. unfold invoked_from.
    destruct (Status t (tk (looked_up names t i w))) eqn:Est;
      try (destruct Hi as (Hi & _); discriminate);
      destruct fl as [[s p] r];
      apply Run_invoke_again in Hi; destruct Hi as (Ha & wr & Hr & ->);
      destruct Ha as (Ha & _); destruct (Ha eq_refl) as (-> & ->);
      eexists _, wr, p;
      (split; [ | split; [exact Hr | split; reflexivity]]); auto. }
  assert (Hnot : again = false -> ctl <> Continue (i - 1)).
  { intros ->. destruct H as (_ & ->).
    destruct (Status t (tk w')); try discriminate; intros C; injection C; lia. }
  assert (Hconv : forall w0 wr p,
            invoked_from names t i w w0 ->
            runPlugin (found_instance names i w) (found_type names i w)
              (found_gen names i w) t w0 = Ok (false, p, true) wr ->
            again = true).
  { intros w0 wr p [(Est & ->) | (Est & ->)] Hr; rewrite Est in Hi;
      destruct fl as [[s' p'] r'];
      apply Run_invoke_again in Hi; destruct Hi as (Ha & wr' & Hr' & _);
      rewrite Hr in Hr'; injection Hr' as <- <- <- <-; now apply Ha. }
  split.
  - split.
    + intros Hc. destruct again; [ | now apply Hnot in Hc].
      destruct (Hinv eq_refl) as (w0 & wr & p & A & B & _).
      now exists w0, wr, p.
    + intros (w0 & wr & p & A & B).
      rewrite (Hconv _ _ _ A B) in H. apply H.
  - intros Hc. destruct again; [ | now apply Hnot in Hc].
    destruct (Hinv eq_refl) as (w0 & wr & p & A & B & C & D).
    destruct H as (_ & ->). now exists w0, wr, p.
Qed.

(** Line 126 after an iteration that ended with [i--; continue]: the loop
    enters its body for the same index. *)
Lemma Run_loop_reenters fuel names t i flags w fl w2 :
  i < Z.of_nat (List.length names) ->
  stopped (pl (yield w)) = 0 ->
  Run_body names t i flags (log (EvLoadStopped L126 0) (yield w))
  = Ok (Continue (i - 1), fl) w2 ->
  Run_loop (S fuel) names t i flags w = Run_loop fuel names t i fl w2.
Proof.
  intros Hlt H0 Hb. cbn [Run_loop].
  destruct (Z.ltb_spec i (Z.of_nat (List.length names))) as [_ | C]; [ | lia].
  unfold bind at 1. cbn [load_stopped]. rewrite H0. cbn [Z.eqb].
  unfold bind at 1. rewrite Hb.
  now replace (i - 1 + 1) with i by lia.
Qed.

Lemma looked_up_trace names t i w :
  exists l, trace (looked_up names t i w) =
            (l ++ EvGetPluginInstance (nth (Z.to_nat i) names "") true
               :: trace w)%list.
Proof.
  unfold looked_up. cbv zeta.
  destruct (snd (fst (getPluginInstance _ true (reg w)))) as [e | ]; cbn.
  - now exists [EvSetError t e http.StatusServiceUnavailable].
  - now exists [].
Qed.

(** Every iteration starts by asking the registry for the plugin of its
    index. *)
Lemma Run_body_looks_up names t i flags w x w' :
  Run_body names t i flags w = Ok x w' ->
  In (EvGetPluginInstance (nth (Z.to_nat i) names "") true) (new_events w w').
Proof.
  destruct x as [ctl fl]. intros H. apply Run_body_inv in H. cbv zeta in H.
  destruct H as (again & w2 & Hi & H).
  destruct (looked_up_trace names t i w) as (l0 & E0).
  assert (Hinv : forall w0, (exists l, trace w0 = (l ++ trace (looked_up names t i w))%list) ->
            Run_invoke (found_instance names i w) (found_type names i w)
              (found_gen names i w) t w0 = Ok (again, fl) w2 ->
            exists l, trace w2 = (l ++ trace (looked_up names t i w))%list).
  { intros w0 (l1 & E1) Hr. apply Run_invoke_inv in Hr.
    destruct Hr as (s & p & r & wr & Hr & _ & _ & ->).
    pose proof (steadily_runPlugin (found_instance names i w)
                  (found_type names i w) (found_gen names i w) t w0) as S.
    rewrite Hr in S. destruct (sd_trace _ _ S) as (l2 & E2).
    unfold extends in E2. cbn [trace log with_reg]. rewrite E2, E1.
    exists (EvReleasePluginInstance (found_instance names i w) :: l2 ++ l1)%list.
    cbn [app]. now rewrite <- app_assoc. }
  assert (H2 : exists l, trace w2 = (l ++ trace (looked_up names t i w))%list).
  { destruct (Status t (tk (looked_up names t i w)));
      try (destruct Hi as (_ & _ & ->); now exists []).
    - apply (Hinv (log EvStart (with_tk start (looked_up names t i w))));
        [now exists [EvStart] | exact Hi].
    - apply (Hinv (looked_up names t i w)); [now exists [] | exact Hi]. }
  destruct H2 as (l2 & E2).
  assert (H3 : exists l, trace w' = (l ++ trace w2)%list).
  { destruct again.
    - destruct H as (_ & ->). now exists [].
    - destruct H as (Hd & _).
      pose proof (calmly_Run_dispatch (found_instance names i w) t w2) as C.
      rewrite Hd in C. apply (ca_trace _ _ C). }
  destruct H3 as (l3 & E3).
  rewrite (new_events_app w w'
             (l3 ++ l2 ++ l0 ++
              [EvGetPluginInstance (nth (Z.to_nat i) names "") true])%list).
  - rewrite !in_app_iff. right. right. right. now left.
  - rewrite E3, E2, E0. rewrite <- !app_assoc. reflexivity.
Qed.


(** ** Preemption (lines 246-254 and 275-276) *)

(** The world in which [instance.Run] starts to execute. *)
Definition entered (i : wrappedPlugin) (t : TaskRef) w : World T R :=
  set_runs (tl (runs w)) (log (EvPluginRunEnter i t (pl w)) w).

Lemma ran_eq i t w : ran i t w = run_steps t (steps (script w)) (entered i t w).
Proof. reflexivity. Qed.

Lemma prepared_scheduleCancel i ty gen input w :
  scheduleCancel (pl (prepared i ty gen input w)) =
  match ty with
  | plugins.SourcePlugin => Some (PreemptClosure (preemptTask input))
  | plugins.OtherPlugin _ => scheduleCancel (pl w)
  end.
Proof. now destruct ty. Qed.

Lemma after_run_slots i ty gen input w :
  rerunCancel (pl (after_run i ty gen input w)) = Some NoOpCancelFunc /\
  scheduleCancel (pl (after_run i ty gen input w)) = Some NoOpCancelFunc /\
  stopCancel (pl (after_run i ty gen input w)) = stopCancel (pl w) /\
  runningPluginName (pl (after_run i ty gen input w)) = "" /\
  runningPluginGeneration (pl (after_run i ty gen input w)) = 0.
Proof.
  unfold after_run, reset, exited, ran. cbn.
  repeat split; auto. rewrite run_steps_stopCancel. now destruct ty.
Qed.

(** [Stop(true)] on a pipeline whose [scheduleCancel] is the no-op. *)
Lemma Stop_scheduled_noop w :
  scheduleCancel (pl w) = Some NoOpCancelFunc ->
  tk (Stop_enter true w) = tk w /\
  preempted_cell (Stop_enter true w) = preempted_cell w /\
  (forall c, ~ In (EvCancel c) (new_events w (Stop_enter true w))) /\
  (forall f, In (EvInvoke SlotSchedule f) (new_events w (Stop_enter true w)) ->
             f = Some NoOpCancelFunc).
Proof.
  intros H. unfold Stop_enter.
  destruct (stopped (pl w) =? 0); cbv zeta; cbn [pl log write scheduleCancel set_stopped].
  - rewrite H. cbn [invoke].
    rewrite (new_events_app w _
               [EvLoadStarted (started (pl w));
                EvInvoke SlotSchedule (Some NoOpCancelFunc);
                EvCasStopped true]) by reflexivity.
    repeat split; auto.
    + intros c [C | [C | [C | []]]]; discriminate.
    + intros f [C | [C | [C | []]]]; try discriminate. now injection C as <-.
  - rewrite (new_events_app w _ [EvCasStopped false]) by reflexivity.
    repeat split; auto.
    + intros c [C | []]; discriminate.
    + intros f [C | []]; discriminate.
Qed.

Lemma non_source_run i tag gen input w l :
  scheduleCancel (pl w) = Some NoOpCancelFunc ->
  plain (stopCancel (pl w)) ->
  scheduleCancel
    (pl (run_steps (pluginTask (plugins.OtherPlugin tag) input) l
           (entered i (pluginTask (plugins.OtherPlugin tag) input)
              (prepared i (plugins.OtherPlugin tag) gen input w))))
  = Some NoOpCancelFunc /\
  preempted_cell
    (run_steps (pluginTask (plugins.OtherPlugin tag) input) l
       (entered i (pluginTask (plugins.OtherPlugin tag) input)
          (prepared i (plugins.OtherPlugin tag) gen input w)))
  = false.
Proof.
  intros Hs Hp. split.
  - rewrite run_steps_scheduleCancel. exact Hs.
  - rewrite run_steps_preempted; [reflexivity | ].
    unfold no_preempt. cbn. rewrite Hs. repeat split; auto. apply Hp.
Qed.


(** ** The second dispatch on the task status (lines 149-166) *)

(** The world after the load of [stopped] at line 155. *)
Definition stop_checked w : World T R :=
  log (EvLoadStopped L155 (stopped (pl (yield w)))) (yield w).

(** [tsk.finish(t)]. *)
Definition finished (t : TaskRef) w : World T R :=
  log (EvFinish t) (with_tk (finish t) w).

(** [tsk.recover(instance.Name(), instance.Type(), task.Running, t)]. *)
Definition recovery (i : wrappedPlugin) (t : TaskRef) w : bool * T :=
  recover (wp_name i) (wp_type i) task.Running t (tk w).

Definition recovered (i : wrappedPlugin) (t : TaskRef) w : World T R :=
  log (EvRecover (wp_name i) (wp_type i) task.Running t (fst (recovery i t w)))
    (with_tk (fun _ => snd (recovery i t w)) w).

Lemma Run_invoke_instance instance ty gen t w x w' :
  Run_invoke instance ty gen t w = Ok x w' -> exists i, instance = Some i.
Proof.
  destruct instance as [i | ]; [now exists i | ].
  unfold Run_invoke. intros H. apply bind_Ok in H as (y & w1 & H & _).
  destruct (runPlugin_nil ty gen t w) as (w0 & E). congruence.
Qed.


(** ** The cancel slots are never nil *)

(** The struct holds non-nil cancel functions now and held them after every
    write so far. *)
Definition sound w : Prop :=
  slots_nonnil (pl w) /\ Forall slots_nonnil (hist w).

Definition keeps (f : Pipeline -> Pipeline) : Prop :=
  forall p, slots_nonnil p -> slots_nonnil (f p).

Lemma sound_write f w : keeps f -> sound w -> sound (write f w).
Proof.
  intros Hf (H1 & H2). split; cbn; [ | constructor]; auto.
Qed.

Lemma sound_same w w' :
  pl w' = pl w -> hist w' = hist w -> sound w -> sound w'.
Proof. unfold sound. now intros -> ->. Qed.

Lemma keeps_set_slot (f : cancelFunc) :
  keeps (set_rerunCancel (Some f)) /\ keeps (set_stopCancel (Some f)) /\
  keeps (set_scheduleCancel (Some f)).
Proof.
  unfold keeps, slots_nonnil. repeat split; cbn; try discriminate; tauto.
Qed.

Lemma keeps_other :
  (forall v, keeps (set_started v)) /\ (forall v, keeps (set_stopped v)) /\
  (forall v, keeps (set_runningPluginName v)) /\
  (forall v, keeps (set_runningPluginGeneration v)) /\
  (forall v, keeps (set_pipelineAndTaskStatChan v)) /\
  (forall v, keeps (set_pluginStatChan v)) /\
  (forall v, keeps (set_statUpdaterStop v)) /\
  (forall v, keeps (set_done v)) /\
  keeps (fun p => set_statUpdaterDone (S (statUpdaterDone p)) p).
Proof.
  unfold keeps, slots_nonnil. repeat split; cbn; tauto.
Qed.

Lemma invoke_struct (f : option cancelFunc) w :
  pl (invoke f w) = pl w /\ hist (invoke f w) = hist w.
Proof. now destruct f as [[ | t | t | t] | ]. Qed.

Lemma sound_invoke f w : sound w -> sound (invoke f w).
Proof.
  destruct (invoke_struct f w) as (A & B). now apply sound_same.
Qed.

Lemma sound_Stop_enter scheduled w : sound w -> sound (Stop_enter scheduled w).
Proof.
  intros H. unfold Stop_enter.
  destruct (stopped (pl w) =? 0); [ | exact H]. cbv zeta.
  match goal with |- sound (set_stopCall _ (log _ (invoke ?f ?x))) =>
    apply (sound_same (invoke f x)); [reflexivity | reflexivity | ];
    apply sound_invoke
  end.
  apply (sound_write (set_stopped 1) w); [apply keeps_other | exact H].
Qed.

Lemma sound_listener_handle info w : sound w -> sound (listener_handle info w).
Proof.
  intros H. unfold listener_handle. destruct (_ || _); [exact H | ].
  apply sound_invoke. exact H.
Qed.

Lemma sound_env_step a w : sound w -> sound (env_step a w).
Proof.
  intros H. destruct a as [scheduled | info | | | d]; cbn [env_step].
  - now apply sound_Stop_enter.
  - now apply sound_listener_handle.
  - unfold pipelineAndTaskStatUpdater_recv.
    destruct (pipelineUpdater w), (pipelineAndTaskStatChan (pl w)) as [ | d rest];
      try exact H.
    apply (sound_write (set_pipelineAndTaskStatChan rest) w);
      [apply keeps_other | exact H].
  - unfold pluginStatUpdater_recv.
    destruct (pluginUpdater w), (pluginStatChan (pl w)) as [ | d rest];
      try exact H.
    apply (sound_write (set_pluginStatChan rest) w);
      [apply keeps_other | exact H].
  - exact H.
Qed.

Lemma sound_env_steps b w : sound w -> sound (env_steps b w).
Proof.
  revert w. induction b as [ | a b IH]; intros w H; [exact H | ].
  apply (IH (env_step a w)). now apply sound_env_step.
Qed.

Lemma sound_yield w : sound w -> sound (yield w).
Proof.
  intros H. unfold yield. destruct (interleave w) as [ | b rest]; [exact H | ].
  apply sound_env_steps. exact H.
Qed.

Lemma sound_run_steps t l w : sound w -> sound (run_steps t l w).
Proof.
  revert w. induction l as [ | s l IH]; intros w H; [exact H | ].
  apply (IH (run_step t s w)).
  destruct s as [a | e c]; [now apply sound_env_step | exact H].
Qed.

Lemma sound_listener notices w :
  sound w -> sound (cancelAndRerunRunningPlugin notices w).
Proof.
  revert w. induction notices as [ | info l IH]; intros w H; [exact H | ].
  apply (IH (listener_handle info w)). now apply sound_listener_handle.
Qed.

(** A computation that keeps the slots non-nil, however it ends. *)
Definition soundly {A} (m : M A) : Prop :=
  forall w, sound w ->
    match m w with
    | Ok _ w' | Panic _ w' | Blocked w' => sound w'
    | OutOfFuel => True
    end.

Lemma soundly_ret {A} (a : A) : soundly (ret a).
Proof. intros w H. exact H. Qed.

Lemma soundly_bind {A B} (m : M A) (f : A -> M B) :
  soundly m -> (forall a, soundly (f a)) -> soundly (bind m f).
Proof.
  intros Hm Hf w H. unfold bind. specialize (Hm w H).
  destruct (m w) as [a w1 | why w1 | w1 | ]; auto.
  apply (Hf a w1 Hm).
Qed.

Lemma soundly_gets {A} (f : World T R -> A) : soundly (gets f).
Proof. intros w H. exact H. Qed.

Lemma soundly_lift (f : World T R -> World T R) :
  (forall w, sound w -> sound (f w)) -> soundly (lift f).
Proof. intros Hf w H. apply Hf, H. Qed.

Lemma soundly_load_stopped site : soundly (load_stopped site).
Proof. intros w H. apply (sound_yield w H). Qed.

Lemma soundly_cas_started : soundly cas_started.
Proof.
  intros w H. unfold cas_started. destruct (started (pl (yield w)) =? 0).
  - apply (sound_write (set_started 1) (yield w));
      [apply keeps_other | now apply sound_yield].
  - apply (sound_yield w H).
Qed.

Lemma soundly_store_started v : soundly (store_started v).
Proof.
  intros w H.
  apply (sound_write (set_started v) (yield w));
    [apply keeps_other | now apply sound_yield].
Qed.

Lemma soundly_deref instance : soundly (deref instance).
Proof. intros w H. now destruct instance. Qed.

Lemma soundly_t_Error site t : soundly (t_Error site t).
Proof. intros w H. exact H. Qed.

Lemma soundly_t_recover name ty st t : soundly (t_recover name ty st t).
Proof. intros w H. exact H. Qed.

Lemma soundly_m_getPluginInstance name forRun :
  soundly (m_getPluginInstance name forRun).
Proof. intros w H. exact H. Qed.

Lemma soundly_close_done : soundly close_done.
Proof.
  intros w H. unfold close_done. destruct (done (pl w)); [exact H | ].
  apply (sound_write (set_done true) w); [apply keeps_other | exact H].
Qed.

Lemma soundly_instance_Run i t : soundly (instance_Run i t).
Proof.
  intros w H. rewrite instance_Run_eq.
  apply (sound_same (ran i t w)); [reflexivity | reflexivity | ].
  apply (sound_run_steps t (steps (script w)) (entered i t w)). exact H.
Qed.

Lemma soundly_offer_pluginStat d : soundly (offer_pluginStat d).
Proof.
  intros w H. rewrite offer_pluginStat_eq.
  destruct (_ <? _)%nat; [ | exact H].
  apply (sound_write (set_pluginStatChan (pluginStatChan (pl w) ++ [d])) w);
    [apply keeps_other | exact H].
Qed.

Lemma soundly_offer_pipelineStat d : soundly (offer_pipelineStat d).
Proof.
  intros w H. rewrite offer_pipelineStat_eq.
  destruct (_ <? _)%nat; [ | exact H].
  apply (sound_write
           (set_pipelineAndTaskStatChan (pipelineAndTaskStatChan (pl w) ++ [d])) w);
    [apply keeps_other | exact H].
Qed.

Lemma soundly_write f : keeps f -> soundly (lift (write f)).
Proof. intros Hf w H. now apply sound_write. Qed.

Ltac sound_step :=
  first
    [ apply soundly_ret | apply soundly_gets | apply soundly_load_stopped
    | apply soundly_cas_started | apply soundly_store_started
    | apply soundly_deref | apply soundly_t_Error | apply soundly_t_recover
    | apply soundly_m_getPluginInstance | apply soundly_close_done
    | apply soundly_instance_Run
    | apply soundly_offer_pluginStat | apply soundly_offer_pipelineStat
    | apply soundly_write; first [apply keeps_set_slot | apply keeps_other]
    | apply soundly_lift; intros ? ?; assumption
    | apply soundly_bind; [ | intros ]
    | match goal with
      | |- soundly (match ?x with _ => _ end) => destruct x
      | |- soundly (when ?b _) => unfold when
      end ].

Lemma soundly_runPlugin instance pluginType gen input :
  soundly (runPlugin instance pluginType gen input).
Proof.
  unfold runPlugin, runPlugin_prepare, runPlugin_invoke, runPlugin_publish,
    runPlugin_settle, Now, t_clearError, t_SetError, m_dismissPluginInstance.
  repeat sound_step.
Qed.

Lemma soundly_Run_dispatch instance t : soundly (Run_dispatch instance t).
Proof. unfold Run_dispatch, t_finish. repeat sound_step. Qed.

Lemma soundly_Run_body names t i flags : soundly (Run_body names t i flags).
Proof.
  unfold Run_body, Run_invoke, t_SetError, t_start, m_releasePluginInstance.
  repeat first [apply soundly_runPlugin | apply soundly_Run_dispatch | sound_step].
Qed.

Lemma soundly_Run_loop fuel names t i flags :
  soundly (Run_loop fuel names t i flags).
Proof.
  revert i flags. induction fuel as [ | fuel IH]; intros i flags.
  - intros w H. exact I.
  - cbn [Run_loop]. destruct (i <? _); [ | apply soundly_ret].
    apply soundly_bind; [apply soundly_load_stopped | intros v].
    destruct (v =? 0); [ | apply soundly_ret].
    apply soundly_bind; [apply soundly_Run_body | intros [ctl fl]].
    destruct ctl; [apply IH | apply soundly_ret].
Qed.

Lemma soundly_Run_finish t startAt preempted :
  soundly (Run_finish t startAt preempted).
Proof. unfold Run_finish, t_finish, Now. repeat sound_step. Qed.

Lemma soundly_Run : soundly Run.
Proof.
  unfold Run, Now.
  repeat first [apply soundly_Run_loop | apply soundly_Run_finish | sound_step].
Qed.

Lemma sound_updaters_react w : sound w -> sound (updaters_react w).
Proof.
  intros H. unfold updaters_react.
  destruct (statUpdaterStop (pl w)); [ | exact H].
  assert (H1 : sound (match pipelineUpdater w with
                      | Serving => pipelineAndTaskStatUpdater_stop w
                      | _ => w
                      end)).
  { destruct (pipelineUpdater w); try exact H.
    apply (sound_write (set_pipelineAndTaskStatChan []) w);
      [apply keeps_other | exact H]. }
  revert H1. generalize (match pipelineUpdater w with
                         | Serving => pipelineAndTaskStatUpdater_stop w
                         | _ => w
                         end).
  intros w1 H1. destruct (pluginUpdater w1); try exact H1.
  apply (sound_write (set_pluginStatChan []) w1); [apply keeps_other | exact H1].
Qed.

Lemma soundly_recv_statUpdaterDone : soundly recv_statUpdaterDone.
Proof.
  intros w H. unfold recv_statUpdaterDone.
  pose proof (sound_updaters_react w H) as H1.
  revert H1. generalize (updaters_react w). intros w1 H1.
  destruct (pipelineUpdater w1), (pluginUpdater w1); try exact H1;
    match goal with
    | |- sound (log _ (write ?f ?x)) =>
        apply (sound_write f x); [apply keeps_other | exact H1]
    end.
Qed.

Lemma soundly_Stop_drain : soundly Stop_drain.
Proof.
  unfold Stop_drain.
  apply soundly_bind; [ | intros _].
  { intros w H. unfold close_statUpdaterStop.
    destruct (statUpdaterStop (pl w)); [exact H | ].
    apply (sound_write (set_statUpdaterStop true) w);
      [apply keeps_other | exact H]. }
  apply soundly_bind; [apply soundly_recv_statUpdaterDone | intros _].
  apply soundly_bind; [apply soundly_recv_statUpdaterDone | intros _].
  apply soundly_lift. intros w H. exact H.
Qed.

Lemma soundly_Stop scheduled : soundly (Stop scheduled).
Proof.
  intros w H. unfold Stop.
  pose proof (sound_Stop_enter scheduled w H) as H1.
  destruct (stopped (pl w) =? 0); [ | exact H1].
  revert H1. generalize (Stop_enter scheduled w). intros w1 H1.
  unfold Stop_resume. destruct (stopCall w1); try exact H1.
  - destruct (done (pl w1)); [ | exact H1].
    apply (soundly_Stop_drain (log EvWaitDone w1)). exact H1.
  - apply (soundly_Stop_drain w1 H1).
Qed.

(** ** The running plugin's name and generation (lines 266-276) *)

Lemma prepared_running i ty gen input w :
  runningPluginName (pl (prepared i ty gen input w)) = wp_name i /\
  runningPluginGeneration (pl (prepared i ty gen input w)) = gen.
Proof. now destruct ty. Qed.

Lemma running_during i t l w :
  runningPluginName (pl (run_steps t l (entered i t w))) =
  runningPluginName (pl w) /\
  runningPluginGeneration (pl (run_steps t l (entered i t w))) =
  runningPluginGeneration (pl w).
Proof. rewrite run_steps_name, run_steps_gen. split; reflexivity. Qed.

Lemma calmly_runPlugin_rest i t oc sa err fa :
  calmly (runPlugin_rest i t oc sa err fa).
Proof.
  unfold runPlugin_rest.
  repeat first [ apply calmly_publish | apply calmly_settle | calm_step ].
Qed.

Lemma runPlugin_leaves_reset i ty gen input w x w' :
  runPlugin (Some i) ty gen input w = Ok x w' ->
  runningPluginName (pl w') = "" /\
  runningPluginGeneration (pl w') = 0 /\
  rerunCancel (pl w') = Some NoOpCancelFunc /\
  scheduleCancel (pl w') = Some NoOpCancelFunc /\
  stopCancel (pl w') = stopCancel (pl w).
Proof.
  rewrite runPlugin_eq. intros H.
  match type of H with runPlugin_rest ?a ?b ?c ?d ?e ?f ?w2 = _ =>
    pose proof (calmly_runPlugin_rest a b c d e f w2) as C
  end.
  rewrite H in C. fold (after_run i ty gen input w) in C.
  destruct (after_run_slots i ty gen input w) as (A1 & A2 & A3 & A4 & A5).
  rewrite (ca_name _ _ C), (ca_gen _ _ C), (ca_rerunCancel _ _ C),
    (ca_scheduleCancel _ _ C), (ca_stopCancel _ _ C).
  repeat split; assumption.
Qed.



(** ** Stop (lines 208-237) and the statistics updaters *)

(** The cancel function [Stop] calls, and the slot it is read from. *)
Definition stop_slot (scheduled : bool) : Slot :=
  if scheduled then SlotSchedule else SlotStop.

Definition stop_func (scheduled : bool) w : option cancelFunc :=
  if scheduled then scheduleCancel (pl w) else stopCancel (pl w).

(** The world after the CAS of line 209 succeeded and the cancel function
    was called (lines 213-224). *)
Definition stop_won (scheduled : bool) w : World T R :=
  invoke (stop_func scheduled w)
    (log (EvInvoke (stop_slot scheduled) (stop_func scheduled w))
       (log (EvCasStopped true) (write (set_stopped 1) w))).

Lemma Stop_enter_won scheduled w :
  stopped (pl w) = 0 ->
  Stop_enter scheduled w =
  set_stopCall (if started (pl w) =? 1 then StopWaitsDone else StopDrains)
    (log (EvLoadStarted (started (pl w))) (stop_won scheduled w)) /\
  pl (Stop_enter scheduled w) = set_stopped 1 (pl w) /\
  stats (Stop_enter scheduled w) = stats w /\
  pipelineUpdater (Stop_enter scheduled w) = pipelineUpdater w /\
  pluginUpdater (Stop_enter scheduled w) = pluginUpdater w.
Proof.
  intros H. unfold Stop_enter, stop_won, stop_func, stop_slot. rewrite H.
  cbn [Z.eqb]. cbv zeta. cbn [pl log write scheduleCancel stopCancel set_stopped].
  destruct scheduled.
  - destruct (invoke_spec (scheduleCancel (pl w))
                (log (EvInvoke SlotSchedule (scheduleCancel (pl w)))
                   (log (EvCasStopped true) (write (set_stopped 1) w))))
      as (Hpl & _).
    rewrite Hpl. cbn [pl log write started set_stopped].
    repeat split; auto;
      destruct (scheduleCancel (pl w)) as [[ | t | t | t] | ]; reflexivity.
  - destruct (invoke_spec (stopCancel (pl w))
                (log (EvInvoke SlotStop (stopCancel (pl w)))
                   (log (EvCasStopped true) (write (set_stopped 1) w))))
      as (Hpl & _).
    rewrite Hpl. cbn [pl log write started set_stopped].
    repeat split; auto;
      destruct (stopCancel (pl w)) as [[ | t | t | t] | ]; reflexivity.
Qed.

(** What both updaters leave in the sink when they drain the channels. *)
Definition drained (p : Pipeline) (s : PipelineStatistics)
  : PipelineStatistics :=
  drain_records updatePluginStat (pluginStatChan p)
    (drain_records updatePipelineAndTaskStat (pipelineAndTaskStatChan p) s).

(** Lines 231-236 with both updaters serving. *)
Lemma Stop_drain_serving w :
  statUpdaterStop (pl w) = false ->
  pipelineUpdater w = Serving -> pluginUpdater w = Serving ->
  exists w',
    Stop_drain w = Ok tt w' /\
    trace w' =
      (EvAck PluginUpdater :: EvAck PipelineUpdater
       :: EvCloseStatUpdaterStop :: trace w)%list /\
    statUpdaterStop (pl w') = true /\
    statUpdaterDone (pl w') = S (S (statUpdaterDone (pl w))) /\
    pipelineAndTaskStatChan (pl w') = [] /\
    pluginStatChan (pl w') = [] /\
    stats w' = drained (pl w) (stats w) /\
    pipelineUpdater w' = Exited /\ pluginUpdater w' = Exited /\
    stopCall w' = StopReturned /\
    stopped (pl w') = stopped (pl w).
Proof.
  intros H1 H2 H3.
  destruct w as [p h k r s c pc rc il rs tr pu plu sc].
  destruct p as [cn cp f1 f2 f3 sta sto rn rg ch1 ch2 ch3 sus sud dn].
  cbn in H1, H2, H3. subst sus pu plu.
  eexists. split; [vm_compute; reflexivity | ].
  vm_compute. repeat split; reflexivity.
Qed.

Lemma Stop_drain_closed w :
  statUpdaterStop (pl w) = true ->
  Stop_drain w = Panic "close of closed channel" w.
Proof.
  intros H. unfold Stop_drain, bind, close_statUpdaterStop. now rewrite H.
Qed.


End Properties.

(** * Runs of the driver on the task and registry modelled above *)

Definition noStatistics : PipelineStatistics :=
  {| pipelineExecution := []; taskExecution := []; pluginExecution := [] |}.

Definition twoPlugins : SpecRegistry :=
  {| known := [("in", plugins.SourcePlugin); ("out", plugins.OtherPlugin 0)];
     generation := 1; incarnation := 0; useCount := 0 |}.

Definition blank : World SpecTask SpecRegistry :=
  {| pl := {| conf_Name := ""; conf_PluginNames := [];
              rerunCancel := None; stopCancel := None; scheduleCancel := None;
              started := 0; stopped := 0;
              runningPluginName := ""; runningPluginGeneration := 0;
              pipelineAndTaskStatChan := []; pluginStatChan := [];
              pluginUpdateInfoChan := [];
              statUpdaterStop := false; statUpdaterDone := 0; done := false |};
     hist := []; tk := newTask; reg := twoPlugins; stats := noStatistics;
     clock := 0; preempted_cell := false; rerun_cell := false;
     interleave := []; runs := []; trace := [];
     pipelineUpdater := Exited; pluginUpdater := Exited; stopCall := NoStop |}.

(** The pipeline [GetPipelineInstance] returns for the plugin [names], met
    by the schedule [il] and the plugin scripts [rs]. *)
Definition pipelineOf (names : list string) (il : list (list EnvAction))
    (rs : list PluginRun) : World SpecTask SpecRegistry :=
  match GetPipelineInstance
          {| Config := {| Name := "demo"; PluginNames := names |} |}
          (Some tt) (Some noStatistics) (Some twoPlugins)
          {| clock0 := 0; interleave0 := il; runs0 := rs |}
  with
  | inl w => w
  | inr _ => blank
  end.

(** The world a computation leaves, however it ends. *)
Definition final {A} (o : Outcome (T := SpecTask) (R := SpecRegistry) A)
  : World SpecTask SpecRegistry :=
  match o with
  | Ok _ w | Panic _ w | Blocked w => w
  | OutOfFuel => blank
  end.

Definition outPlugin : wrappedPlugin :=
  {| wp_name := "out"; wp_type := plugins.OtherPlugin 0; wp_incarnation := 0 |}.

Definition is_dismissal (e : Event) : bool :=
  match e with EvDismissPluginInstance _ => true | _ => false end.

Definition is_return (s p r : bool) (e : Event) : bool :=
  match e with
  | EvRunPluginReturn s' p' r' => Bool.eqb s s' && Bool.eqb p p' && Bool.eqb r r'
  | _ => false
  end.

(** The plugin fails on its own. *)
Definition failing : World SpecTask SpecRegistry :=
  pipelineOf ["out"] [] [{| steps := []; returns := Some "boom" |}].

(** [Stop(false)] arrives while the plugin runs; the plugin then returns
    the cancellation as its error. *)
Definition stoppedMidRun : World SpecTask SpecRegistry :=
  pipelineOf ["out"] []
    [{| steps := [ByEnv (EnvStop false)]; returns := Some "canceled" |}].

(** The plugin sets an error on the task and returns nil. *)
Definition quietFailure : World SpecTask SpecRegistry :=
  pipelineOf ["out"] []
    [{| steps := [BySetError "bad request" 400]; returns := None |}].

(** Nothing goes wrong. *)
Definition healthy : World SpecTask SpecRegistry := pipelineOf ["out"] [] [].

(** C10.  The record [runPlugin] offers has [successful] true exactly when
    the plugin returned nil and the read of [t.Error()] at line 283 gave
    nil, whereas the [success] it returns only tells that the plugin
    returned nil.  So [successful] implies [success], and not conversely:
    a plugin that sets an error on the task and returns nil is reported to
    the driver with [success = true] and counted as a failure. *)
Theorem stat_successful_is_stronger_than_success :
  (forall (T R : Type) (TM : TaskModel T) (RM : RegistryModel R)
          instance ty gen input (w : World T R) s p r w',
     plain (stopCancel (pl w)) ->
     runPlugin instance ty gen input w = Ok (s, p, r) w' ->
     (exists i, instance = Some i /\
                s = is_nil (returns (script (prepared i ty gen input w)))) /\
     (forall d acc,
        In (EvOfferPluginStat d acc) (new_events w w') ->
        (successful (data d) = true <->
         s = true /\ In (EvReadError L283 None) (new_events w w')) /\
        (successful (data d) = true -> s = true))) /\
  (exists d acc,
     runPlugin (Some outPlugin) (plugins.OtherPlugin 0) 1 BaseTask quietFailure
     = Ok (true, false, false)
          (final (runPlugin (Some outPlugin) (plugins.OtherPlugin 0) 1 BaseTask
                    quietFailure)) /\
     In (EvOfferPluginStat d acc)
        (new_events quietFailure
           (final (runPlugin (Some outPlugin) (plugins.OtherPlugin 0) 1
                     BaseTask quietFailure))) /\
     successful (data d) = false).
Proof.
  split.
  - intros T R TM RM instance ty gen input w s p r w' Hp H. split.
    + destruct (runPlugin_inv _ _ _ _ _ _ _ _ _ Hp H)
        as (i & w3 & w4 & Hi & _ & _ & _ & Hs & _).
      exists i. split; assumption.
    + intros d acc Hin.
      destruct (runPlugin_offers _ _ _ _ _ _ _ _ _ Hp H) as (_ & _ & Ho).
      destruct (Ho d acc Hin) as (A & _ & _).
      split; [exact A | ]. intros Hd. apply A in Hd. apply Hd.
  - exists {| data := {| startAt := 0; finishAt := 0; successful := false |};
              pluginName := "out" |}, true.
    split; [vm_compute; reflexivity | ].
    split; [vm_compute; auto 10 | reflexivity].
Qed.

(** The plugin's error is attached and the instance dismissed when the
    pipeline is not stopped. *)
Lemma plugin_error_on_running_pipeline :
  plain (stopCancel (pl failing)) /\
  runPlugin (Some outPlugin) (plugins.OtherPlugin 0) 1 BaseTask failing
  = Ok (false, false, false)
       (final (runPlugin (Some outPlugin) (plugins.OtherPlugin 0) 1 BaseTask
                 failing)) /\
  exists i e w3,
    Some outPlugin = Some i /\
    returns (script (prepared i (plugins.OtherPlugin 0) 1 BaseTask failing))
    = Some e /\
    (In (EvDismissPluginInstance i)
        (new_events w3
           (final (runPlugin (Some outPlugin) (plugins.OtherPlugin 0) 1
                     BaseTask failing))) <->
     In (EvLoadStopped L308 0)
        (new_events w3
           (final (runPlugin (Some outPlugin) (plugins.OtherPlugin 0) 1
                     BaseTask failing)))).
Proof.
  assert (H1 : plain (stopCancel (pl failing))) by (split; reflexivity).
  assert (H2 : runPlugin (Some outPlugin) (plugins.OtherPlugin 0) 1 BaseTask
                 failing
               = Ok (false, false, false)
                    (final (runPlugin (Some outPlugin) (plugins.OtherPlugin 0)
                              1 BaseTask failing)))
    by (vm_compute; reflexivity).
  split; [exact H1 | ]. split; [exact H2 | ].
  destruct (plugin_error_sets_503_and_dismisses_unless_stopped
              (Some outPlugin) (plugins.OtherPlugin 0) 1 BaseTask failing _
              H1 H2)
    as (i & e & w3 & A & B & _ & _ & _ & _ & _ & _ & C & _).
  exists i, e, w3. split; [exact A | ]. split; [exact B | exact C].
Defined.

(** C4, as the specification words it, fails: the pipeline is stopped while
    the plugin runs, the plugin returns an error, [runPlugin] returns with
    [rerun] and [preempted] false, and the registry is never asked to
    dismiss the instance. *)
Lemma dismissal_skipped_when_stopped :
  Run stoppedMidRun = Ok None (final (Run stoppedMidRun)) /\
  existsb (is_return false false false) (trace (final (Run stoppedMidRun)))
  = true /\
  existsb is_dismissal (trace (final (Run stoppedMidRun))) = false /\
  reg (final (Run stoppedMidRun)) = twoPlugins.
Proof. vm_compute. repeat split; reflexivity. Qed.


